(** * The image-metadata worker of [src/app.py]

    A shallow embedding of the processing stage ([metadata_handler]) and of
    the helpers it calls ([_build_metadata_key], [_is_allowed_image_key],
    [_safe_exif_dict]), with the S3 client modelled as an explicit store that
    is threaded through every call.  The ingestion stage ([_env],
    [ingest_handler]) follows, against a queue service modelled the same way.

    Conventions.
    - A Python [str] is a [string]; text is kept in its UTF-8 encoding (a
      lone surrogate in the three bytes the same scheme gives it), so
      [startswith], slicing off a prefix that is present and [+] are the
      byte-level prefix test, [drop] and append.
    - Standard output has a Unicode encoding (UTF-8 in the Lambda runtime):
      it encodes every character but, at most, a lone surrogate.  [print] is
      modelled where it is given a [str] outside every [try]: it raises
      [UnicodeEncodeError] on a string standard output cannot encode.  The
      other calls of [print] are given numbers, dicts and [repr]s, in which
      a lone surrogate is written as an escape.
    - An event is the dict the runtime decodes from JSON; the value under
      ["Records"] may be any JSON value ([event_records]).  [Event] is the
      case of a list.
    - A Python exception is a result value: [None], or a constructor naming
      the exception class where the handler that catches it looks at it.
    - Library functions whose results the code only passes on ([json.loads],
      [Image.open], [str], [bytes.decode], the string escaping of
      [json.dumps], the table [ExifTags.TAGS]), the encoding of standard
      output and the bucket name check of the S3 client are the fields of
      the class [Libs]. *)

From Stdlib Require Import ZArith Lia Sorted.
From Stdlib.Strings Require Import Ascii Byte.
From stdpp Require Import base list strings gmap fin_maps pretty.

Open Scope string_scope.

Set Warnings "-register-all".

(** ** Strings *)

Module Str.

(** [s.startswith(p)] *)
Definition startswith (s p : string) : bool := String.prefix p s.

(** [s[n:]] *)
Fixpoint drop (n : nat) (s : string) : string :=
  match n, s with
  | O, _ => s
  | S _, EmptyString => EmptyString
  | S n', String _ s' => drop n' s'
  end.

(** [s.endswith(p)] *)
Definition endswith (s p : string) : bool :=
  String.prefix (String.rev p) (String.rev s).

Definition lower_char (c : ascii) : ascii :=
  let n := nat_of_ascii c in
  if (65 <=? n)%nat && (n <=? 90)%nat then ascii_of_nat (n + 32) else c.

Definition upper_char (c : ascii) : ascii :=
  let n := nat_of_ascii c in
  if (97 <=? n)%nat && (n <=? 122)%nat then ascii_of_nat (n - 32) else c.

Fixpoint map_chars (f : ascii -> ascii) (s : string) : string :=
  match s with
  | EmptyString => EmptyString
  | String c s' => String (f c) (map_chars f s')
  end.

(** [s.lower()] and [s.upper()] on the ASCII letters; the bytes of a
    character outside ASCII are left as they are.  No character outside
    ASCII lowers to one of the letters of the allowed extensions, so the
    extension test below agrees with Python's on every key. *)
Definition lower : string -> string := map_chars lower_char.
Definition upper : string -> string := map_chars upper_char.

(** [s in options] for a tuple of strings *)
Definition mem (s : string) (options : list string) : bool :=
  existsb (String.eqb s) options.

End Str.

(** ** Pure helpers of the module *)

Definition ALLOWED_EXTS : list string := [".jpg"; ".jpeg"; ".png"].

Definition _is_allowed_image_key (key : string) : bool :=
  existsb (Str.endswith (Str.lower key)) ALLOWED_EXTS.

Definition _build_metadata_key (input_key input_prefix output_prefix : string) : string :=
  let rel :=
    if Str.startswith input_key input_prefix
    then Str.drop (String.length input_prefix) input_key
    else input_key in
  output_prefix +:+ rel +:+ ".json".

(** ** JSON values and Python dicts *)

(** What [json.loads] produces and [json.dumps] consumes.  A float is kept by
    the text [json.dumps] writes for it: the code never computes with one, it
    only copies it. *)
Inductive Json : Type :=
| JNull
| JBool (b : bool)
| JNum (n : Z)
| JFloat (text : string)
| JStr (s : string)
| JArr (xs : list Json)
| JObj (kvs : list (string * Json)).

(** A [dict] with [str] keys, in insertion order. *)
Definition PyDict : Type := list (string * Json).

(** [d.get(k)]; [d[k]] raises [KeyError] where this is [None]. *)
Fixpoint dict_get (d : PyDict) (k : string) : option Json :=
  match d with
  | [] => None
  | (k', v) :: d' => if String.eqb k' k then Some v else dict_get d' k
  end.

(** [d[k] = v]: an existing key keeps its place. *)
Fixpoint dict_set (d : PyDict) (k : string) (v : Json) : PyDict :=
  match d with
  | [] => [(k, v)]
  | (k', v') :: d' =>
      if String.eqb k' k then (k, v) :: d' else (k', v') :: dict_set d' k v
  end.

(** ** Decoded images *)

(** A tag value as Pillow hands it over: [bytes] (or [bytearray]), a tuple or
    list, or an object of any other type, kept by a name ([str] is all the
    code calls on it). *)
Inductive ExifValue : Type :=
| VBytes (b : list byte)
| VSeq (vs : list ExifValue)
| VOther (o : string).

(** The object [Image.open] returns.  [img_getexif] is [None] when
    [img.getexif()] raises; the tag table lists the tag ids with, for each,
    the value read, or [None] when reading that tag raises. *)
Record Image : Type := {
  img_size : Z * Z;
  img_format : option string;
  img_getexif : option (list (Z * option ExifValue))
}.

(** ** The S3 client *)

(** What a client method raises: [botocore]'s [ClientError] with the code of
    [e.response["Error"]["Code"]] (the empty string when the response has
    none), or an exception of any other class (a connection error, a time
    out, a parameter validation error, ...). *)
Inductive S3Error : Type :=
| ClientError (code : string)
| OtherException.

Inductive Res (A : Type) : Type :=
| Ok (a : A)
| Raise (e : S3Error).
Arguments Ok {A} a.
Arguments Raise {A} e.

(** A stored object, with the [ContentLength] the store declares for it in a
    [get_object] response ([None]: the response has no such entry). *)
Record S3Object : Type := {
  obj_body : list byte;
  obj_content_length : option Z;
  obj_content_type : string
}.

Inductive S3Call : Type :=
| CallHead (bucket : Json) (key : string)
| CallGet (bucket : Json) (key : string)
| CallPut (bucket : Json) (key : string) (body : list byte) (content_type : string).

(** The state behind the global [s3]: the objects by (bucket, key); the
    failures still to come, one entry per request in the order the requests
    are made ([None], and every request past the end of the list, is answered
    from the objects; a failure is whatever the service or the transport
    refuses a request with); and the calls made so far, oldest first. *)
Record S3 : Type := {
  s3_objects : gmap (string * string) S3Object;
  s3_faults : list (option S3Error);
  s3_calls : list S3Call
}.

(** The object a [put_object] leaves in the store. *)
Definition written_object (body : list byte) (content_type : string) : S3Object :=
  {| obj_body := body;
     obj_content_length := Some (Z.of_nat (length body));
     obj_content_type := content_type |}.

(** The next request is answered from the objects: no failure is scheduled
    for it. *)
Definition answered_from_store (s : S3) : Prop := hd None (s3_faults s) = None.

(** ** Library functions *)

Class Libs : Type := {
  (** [json.loads(s)]; [None] when it raises *)
  json_loads : string -> option Json;
  (** [Image.open(BytesIO(b))]; [None] when it raises *)
  Image_open : list byte -> option Image;
  (** the table [ExifTags.TAGS] *)
  TAGS : Z -> option string;
  (** [str(v)] on a tag value; [None] when it raises *)
  py_str : ExifValue -> option string;
  (** [b.decode("utf-8", errors="replace")] *)
  bytes_decode_replace : list byte -> string;
  (** the quoted, escaped form [json.dumps] gives a [str] *)
  json_escape : string -> string;
  (** whether standard output can encode the string, that is, whether it
      holds no lone surrogate the encoding refuses: [print(s)] raises
      [UnicodeEncodeError] where this is [false] *)
  printable : string -> bool;
  (** whether the S3 client accepts the string as a [Bucket]: a method called
      with another one raises [ParamValidationError] *)
  valid_bucket_name : string -> bool
}.

Section Model.

Context `{L : Libs}.

(** ** The methods of the S3 client *)

(** One call of a client method.  The call is logged; a [Bucket] that is not
    a [str], or is a [str] the client's name check refuses, is rejected by
    the client before any request is made; otherwise the request fails as
    scheduled or is answered by [serve]. *)
Definition s3_call {A : Type} (call : S3Call) (bucket : Json)
    (serve : string -> gmap (string * string) S3Object ->
             Res A * gmap (string * string) S3Object)
    (s : S3) : Res A * S3 :=
  let calls := (s3_calls s ++ [call])%list in
  let rejected :=
    (Raise OtherException,
     {| s3_objects := s3_objects s; s3_faults := s3_faults s; s3_calls := calls |}) in
  match bucket with
  | JStr b =>
      if valid_bucket_name b then
        match s3_faults s with
        | Some e :: faults =>
            (Raise e, {| s3_objects := s3_objects s; s3_faults := faults; s3_calls := calls |})
        | faults =>
            let '(r, objects) := serve b (s3_objects s) in
            (r, {| s3_objects := objects; s3_faults := tail faults; s3_calls := calls |})
        end
      else rejected
  | _ => rejected
  end.

(** [s3.head_object(Bucket=bucket, Key=key)] *)
Definition head_object (bucket : Json) (key : string) : S3 -> Res unit * S3 :=
  s3_call (CallHead bucket key) bucket (fun b objects =>
    match objects !! (b, key) with
    | Some _ => (Ok (), objects)
    | None => (Raise (ClientError "404"), objects)
    end).

(** [s3.get_object(Bucket=bucket, Key=key)] *)
Definition get_object (bucket : Json) (key : string) : S3 -> Res S3Object * S3 :=
  s3_call (CallGet bucket key) bucket (fun b objects =>
    match objects !! (b, key) with
    | Some obj => (Ok obj, objects)
    | None => (Raise (ClientError "NoSuchKey"), objects)
    end).

(** [s3.put_object(Bucket=bucket, Key=key, Body=body, ContentType=content_type)] *)
Definition put_object (bucket : Json) (key : string) (body : list byte)
    (content_type : string) : S3 -> Res unit * S3 :=
  s3_call (CallPut bucket key body content_type) bucket (fun b objects =>
    (Ok (), <[(b, key) := written_object body content_type]> objects)).

(** ** [_safe_exif_dict] *)

(** [ExifTags.TAGS.get(tag_id, str(tag_id))] *)
Definition tag_name (tag_id : Z) : string :=
  default (pretty tag_id) (TAGS tag_id).

(** The [if]/[elif]/[else] of the loop body; [None] when a [str] raises. *)
Definition coerce_tag_value (value : ExifValue) : option Json :=
  match value with
  | VBytes b => Some (JStr (bytes_decode_replace b))
  | VSeq vs => JArr <$> mapM (fun v => JStr <$> py_str v) vs
  | VOther _ => JStr <$> py_str value
  end.

(** [dict(exif)]: every tag is read; [None] when a read raises. *)
Definition read_tags (exif : list (Z * option ExifValue)) : option (list (Z * ExifValue)) :=
  mapM (fun '(tag_id, r) => pair tag_id <$> r) exif.

(** The [for] loop over [dict(exif).items()]. *)
Fixpoint exif_loop (items : list (Z * ExifValue)) (exif_out : PyDict) : option PyDict :=
  match items with
  | [] => Some exif_out
  | (tag_id, value) :: rest =>
      match coerce_tag_value value with
      | None => None
      | Some v => exif_loop rest (dict_set exif_out (tag_name tag_id) v)
      end
  end.

Definition _safe_exif_dict (img : Image) : PyDict :=
  match img_getexif img with
  | None => []                                (* except Exception: return {} *)
  | Some [] => []                             (* if not exif: return exif_out *)
  | Some exif =>
      match read_tags exif ≫= (fun items => exif_loop items []) with
      | None => []                            (* except Exception: return {} *)
      | Some exif_out => exif_out
      end
  end.



(** ** [json.dumps(obj, indent=..., sort_keys=True)] *)

(** A line break followed by the indentation of nesting depth [level]. *)
Definition newline_indent (indent level : nat) : string :=
  String (ascii_of_nat 10) (String.concat EmptyString (replicate (indent * level) " ")).

(** [sorted] on the items of a dict, by key. *)
Fixpoint insert_item (item : string * string) (sorted : list (string * string))
  : list (string * string) :=
  match sorted with
  | [] => [item]
  | item' :: rest =>
      if String.ltb (fst item) (fst item') then item :: sorted
      else item' :: insert_item item rest
  end.

Definition sort_items (items : list (string * string)) : list (string * string) :=
  foldl (fun sorted item => insert_item item sorted) [] items.

(** The text of [j] at nesting depth [level]: items one per line, separated
    by a comma, a key and its value by a colon and a space. *)
Fixpoint json_dumps_at (indent level : nat) (j : Json) : string :=
  match j with
  | JNull => "null"
  | JBool true => "true"
  | JBool false => "false"
  | JNum n => pretty n
  | JFloat text => text
  | JStr s => json_escape s
  | JArr [] => "[]"
  | JArr xs =>
      "[" +:+ newline_indent indent (S level)
      +:+ String.concat ("," +:+ newline_indent indent (S level))
            (map (json_dumps_at indent (S level)) xs)
      +:+ newline_indent indent level +:+ "]"
  | JObj [] => "{}"
  | JObj kvs =>
      "{" +:+ newline_indent indent (S level)
      +:+ String.concat ("," +:+ newline_indent indent (S level))
            (map (fun item => json_escape (fst item) +:+ ": " +:+ snd item)
               (sort_items
                  (map (fun kv => (fst kv, json_dumps_at indent (S level) (snd kv))) kvs)))
      +:+ newline_indent indent level +:+ "}"
  end.

Definition json_dumps_sorted (indent : nat) (obj : Json) : string :=
  json_dumps_at indent 0 obj.

(** [s.encode("utf-8")] *)
Definition encode_utf8 (s : string) : list byte := String.list_byte_of_string s.

(** ** [metadata_handler] *)

Inductive Outcome : Type := Processed | Skipped | Errored.

(** [os.environ.get(name, default)] *)
Definition environ_get (environ : gmap string string) (name default_value : string) : string :=
  default default_value (environ !! name).

(** The first [try] of the loop body: the envelope of one record.  [None]
    when an exception is raised: [record] has no [get], the body is not a
    [str], [json.loads] raises, the value parsed cannot be indexed by a
    string, or it has no [bucket] or no [key]. *)
Definition parse_envelope (record : Json) : option (Json * Json * Json) :=
  match record with
  | JObj fields =>
      match default (JStr "{}") (dict_get fields "body") with
      | JStr text =>
          match json_loads text with
          | Some (JObj body) =>
              match dict_get body "bucket", dict_get body "key" with
              | Some bucket, Some key =>
                  Some (bucket, key, default JNull (dict_get body "etag"))
              | _, _ => None
              end
          | _ => None
          end
      | _ => None
      end
  | _ => None
  end.

(** The [try] around [get_object]: the body and [content_len]. *)
Definition fetch_step (bucket : Json) (key : string) (s : S3) : option (list byte * Z) * S3 :=
  match get_object bucket key s with
  | (Ok obj, s') =>
      let img_bytes := obj_body obj in
      (Some (img_bytes, default (Z.of_nat (length img_bytes)) (obj_content_length obj)), s')
  | (Raise _, s') => (None, s')
  end.

(** The [try] around [Image.open]: width, height, [fmt] and [exif_data]. *)
Definition decode_step (img_bytes : list byte) : option (Z * Z * string * PyDict) :=
  img ← Image_open img_bytes;
  Some (fst (img_size img), snd (img_size img),
        Str.upper (default EmptyString (img_format img)),
        _safe_exif_dict img).

(** The dict [metadata]. *)
Definition metadata_dict (bucket : Json) (key : string) (etag : Json) (fmt : string)
    (width height content_len : Z) (exif_data : PyDict) : Json :=
  JObj [("source_bucket", bucket);
        ("source_key", JStr key);
        ("etag", etag);
        ("format", JStr fmt);
        ("width", JNum width);
        ("height", JNum height);
        ("file_size_bytes", JNum content_len);
        ("exif", JObj exif_data)].

(** The loop body from [get_object] on: fetch, decode, assemble, write. *)
Definition fetch_decode_write (bucket : Json) (key out_key : string) (etag : Json)
    (s : S3) : option Outcome * S3 :=
  match fetch_step bucket key s with
  | (None, s1) => (Some Errored, s1)
  | (Some (img_bytes, content_len), s1) =>
      match decode_step img_bytes with
      | None => (Some Errored, s1)
      | Some (width, height, fmt, exif_data) =>
          let metadata :=
            metadata_dict bucket key etag fmt width height content_len exif_data in
          match put_object bucket out_key
                  (encode_utf8 (json_dumps_sorted 2 metadata))
                  "application/json" s1 with
          | (Ok _, s2) => (Some Processed, s2)
          | (Raise _, s2) => (Some Errored, s2)
          end
      end
  end.

(** The loop body after the envelope is parsed, for one work item.  The
    outcome names the counter that is incremented; it is [None] when an
    exception leaves the handler. *)
Definition process_one (input_prefix output_prefix : string) (bucket key etag : Json)
    (s : S3) : option Outcome * S3 :=
  match key with
  | JStr key =>
      if negb (Str.startswith key input_prefix) || negb (_is_allowed_image_key key)
      then (Some Skipped, s)
      else
        let out_key := _build_metadata_key key input_prefix output_prefix in
        if negb (printable out_key)
        then (None, s)              (* print("OUT_KEY:", out_key) raises *)
        else
          match head_object bucket out_key s with
          | (Ok _, s1) => (Some Skipped, s1)
          | (Raise (ClientError code), s1) =>
              if negb (Str.mem code ["404"; "NoSuchKey"; "NotFound"])
              then (Some Errored, s1)
              else fetch_decode_write bucket key out_key etag s1
          | (Raise OtherException, s1) => (None, s1)      (* not caught *)
          end
  | _ => (None, s)                  (* AttributeError: no [startswith] *)
  end.

(** One turn of the [for] loop. *)
Definition process_record (input_prefix output_prefix : string) (record : Json)
    (s : S3) : option Outcome * S3 :=
  match parse_envelope record with
  | None => (Some Errored, s)
  | Some (bucket, key, etag) => process_one input_prefix output_prefix bucket key etag s
  end.

(** [record[name]] on a JSON object. *)
Definition json_field (record : Json) (name : string) : option Json :=
  match record with
  | JObj fields => dict_get fields name
  | _ => None
  end.

(** The output file format as the design document words it: a JSON object
    whose members are the eight fields of the record in sorted key order,
    one per line, each indented by two spaces. *)
Definition member (name value_text : string) : string :=
  json_escape name +:+ ": " +:+ value_text.

Definition record_layout (bucket : Json) (key : string) (etag : Json) (fmt : string)
    (width height content_len : Z) (exif_data : PyDict) : string :=
  "{" +:+ newline_indent 2 1
  +:+ String.concat ("," +:+ newline_indent 2 1)
        [member "etag" (json_dumps_at 2 1 etag);
         member "exif" (json_dumps_at 2 1 (JObj exif_data));
         member "file_size_bytes" (pretty content_len);
         member "format" (json_escape fmt);
         member "height" (pretty height);
         member "source_bucket" (json_dumps_at 2 1 bucket);
         member "source_key" (json_escape key);
         member "width" (pretty width)]
  +:+ newline_indent 2 0 +:+ "}".

(** A malformed envelope as the design document words it: the body cannot be
    parsed, or a required field is missing from the object parsed. *)
Inductive malformed_envelope : Json -> Prop :=
| unparsable_body fields text :
    default (JStr "{}") (dict_get fields "body") = JStr text ->
    json_loads text = None ->
    malformed_envelope (JObj fields)
| missing_required_field fields text body :
    default (JStr "{}") (dict_get fields "body") = JStr text ->
    json_loads text = Some (JObj body) ->
    dict_get body "bucket" = None \/ dict_get body "key" = None ->
    malformed_envelope (JObj fields).

Record Response : Type := {
  statusCode : nat;
  processed : nat;
  skipped : nat;
  errors : nat
}.

(** The [for] loop, from the counters [p], [k] and [e]. *)
Fixpoint run_records (input_prefix output_prefix : string) (records : list Json)
    (p k e : nat) (s : S3) : option (nat * nat * nat) * S3 :=
  match records with
  | [] => (Some (p, k, e), s)
  | record :: rest =>
      match process_record input_prefix output_prefix record s with
      | (Some Processed, s') => run_records input_prefix output_prefix rest (S p) k e s'
      | (Some Skipped, s') => run_records input_prefix output_prefix rest p (S k) e s'
      | (Some Errored, s') => run_records input_prefix output_prefix rest p k (S e) s'
      | (None, s') => (None, s')
      end
  end.

(** The event when the value under ["Records"] is a list: that list, [None]
    when the key is absent or the value is [None].  The other values the key
    may hold are covered by [event_records] below. *)
Record Event : Type := { Records : option (list Json) }.

(** [metadata_handler(event, context)], in the process environment [environ]
    and against the store [s].  The result is [None] when the call raises. *)
Definition metadata_handler (environ : gmap string string) (event : Event) (s : S3)
    : option Response * S3 :=
  let output_prefix := environ_get environ "OUTPUT_PREFIX" "metadata/" in
  let input_prefix := environ_get environ "INPUT_PREFIX" "incoming/" in
  match run_records input_prefix output_prefix (default [] (Records event)) 0 0 0 s with
  | (Some (p, k, e), s') =>
      (Some {| statusCode := 200; processed := p; skipped := k; errors := e |}, s')
  | (None, s') => (None, s')
  end.

(** A record is processable against [s]: its envelope parses and the work
    item it holds ends in [Processed] there. *)
Definition processable (environ : gmap string string) (record : Json) (s s' : S3) : Prop :=
  exists bucket key etag,
    parse_envelope record = Some (bucket, key, etag)
    /\ process_one (environ_get environ "INPUT_PREFIX" "incoming/")
         (environ_get environ "OUTPUT_PREFIX" "metadata/") bucket key etag s
       = (Some Processed, s').

End Model.

(** ** The output file format, from the design document

    Independent of the serializer above: a JSON text with two spaces of
    indentation for each level of nesting, one item per line, and the
    members of every object, nested ones too, in ascending key order.  The
    text of a string and of a number is left to the library. *)

Section CanonicalFormat.

Context `{L : Libs}.

Definition indentation (depth : nat) : string :=
  String.concat EmptyString (replicate depth "  ").

Definition line_break (depth : nat) : string :=
  String (ascii_of_nat 10) (indentation depth).

(** The key of [a] does not come after the key of [b]. *)
Definition key_order (a b : string * Json) : Prop :=
  String.ltb (fst b) (fst a) = false.

Inductive canonical_json : nat -> Json -> string -> Prop :=
| canonical_null d : canonical_json d JNull "null"
| canonical_true d : canonical_json d (JBool true) "true"
| canonical_false d : canonical_json d (JBool false) "false"
| canonical_num d n : canonical_json d (JNum n) (pretty n)
| canonical_float d text : canonical_json d (JFloat text) text
| canonical_str d s : canonical_json d (JStr s) (json_escape s)
| canonical_empty_array d : canonical_json d (JArr []) "[]"
| canonical_array d xs texts :
    xs <> [] ->
    Forall2 (canonical_json (S d)) xs texts ->
    canonical_json d (JArr xs)
      ("[" +:+ line_break (S d)
       +:+ String.concat ("," +:+ line_break (S d)) texts
       +:+ line_break d +:+ "]")
| canonical_empty_object d : canonical_json d (JObj []) "{}"
| canonical_object d kvs members texts :
    kvs <> [] ->
    members ≡ₚ kvs ->
    Sorted key_order members ->
    Forall2 (canonical_json (S d)) (map snd members) texts ->
    canonical_json d (JObj kvs)
      ("{" +:+ line_break (S d)
       +:+ String.concat ("," +:+ line_break (S d))
             (zip_with (fun kv text => json_escape (fst kv) +:+ ": " +:+ text)
                members texts)
       +:+ line_break d +:+ "}").

(** The text of the record: its eight members at one level of nesting, in
    ascending key order. *)
Definition record_text (etag_text exif_text size_text format_text height_text
    bucket_text key_text width_text : string) : string :=
  "{" +:+ line_break 1
  +:+ String.concat ("," +:+ line_break 1)
        [json_escape "etag" +:+ ": " +:+ etag_text;
         json_escape "exif" +:+ ": " +:+ exif_text;
         json_escape "file_size_bytes" +:+ ": " +:+ size_text;
         json_escape "format" +:+ ": " +:+ format_text;
         json_escape "height" +:+ ": " +:+ height_text;
         json_escape "source_bucket" +:+ ": " +:+ bucket_text;
         json_escape "source_key" +:+ ": " +:+ key_text;
         json_escape "width" +:+ ": " +:+ width_text]
  +:+ line_break 0 +:+ "}".

End CanonicalFormat.

(** ** Sample inputs

    Concrete libraries, records and stores on which the definitions above are
    run: the scenarios of the design document and the inputs the theorems
    below are instantiated at. *)

Module Sample.

(** [s] between double quotes: what [json.dumps] writes for a [str] none of
    whose characters needs an escape. *)
Definition quote (s : string) : string :=
  String (ascii_of_nat 34) s +:+ String (ascii_of_nat 34) EmptyString.

(** The text of a JSON object with the given members. *)
Definition object_text (members : list (string * string)) : string :=
  "{" +:+ String.concat ", " (map (fun m => quote (fst m) +:+ ": " +:+ snd m) members) +:+ "}".

Definition good_text : string :=
  object_text [("bucket", quote "b"); ("key", quote "incoming/photos/a.jpg");
               ("etag", quote "e1")].
Definition missing_key_text : string := object_text [("bucket", quote "b")].
Definition number_key_text : string := object_text [("bucket", quote "b"); ("key", "5")].
Definition pdf_text : string :=
  object_text [("bucket", quote "b"); ("key", quote "incoming/doc.pdf")].
Definition not_json_text : string := "not json".

Definition good_body : Json :=
  JObj [("bucket", JStr "b"); ("key", JStr "incoming/photos/a.jpg"); ("etag", JStr "e1")].

(** [json.loads] on the texts above; it raises on every other text used. *)
Definition sample_loads (text : string) : option Json :=
  if String.eqb text good_text then Some good_body
  else if String.eqb text missing_key_text then Some (JObj [("bucket", JStr "b")])
  else if String.eqb text number_key_text then Some (JObj [("bucket", JStr "b"); ("key", JNum 5)])
  else if String.eqb text pdf_text
       then Some (JObj [("bucket", JStr "b"); ("key", JStr "incoming/doc.pdf")])
  else if String.eqb text "{}" then Some (JObj [])
  else None.

Definition jpeg_bytes : list byte := [xff; xd8; xff; xe0].
Definition tagged_bytes : list byte := [xff; xd8; xff; xe1].
Definition broken_tag_bytes : list byte := [xff; xd8; xff; xe2].

Definition bytes_eqb (a b : list byte) : bool :=
  String.eqb (String.string_of_list_byte a) (String.string_of_list_byte b).

(** A 10 x 20 JPEG without tags. *)
Definition plain_image : Image :=
  {| img_size := (10, 20)%Z; img_format := Some "jpeg"; img_getexif := Some [] |}.

(** An image with a named tag, a tag the table does not know, a binary tag
    and a tuple. *)
Definition tagged_tags : list (Z * ExifValue) :=
  [(271%Z, VOther "Canon");
   (59999%Z, VOther "7");
   (37500%Z, VBytes [x68; x69]);
   (34853%Z, VSeq [VOther "1"; VOther "2"])].

Definition tagged_image : Image :=
  {| img_size := (640, 480)%Z; img_format := Some "JPEG";
     img_getexif := Some (map (fun t => (fst t, Some (snd t))) tagged_tags) |}.

(** An image one of whose tags cannot be read. *)
Definition broken_tag_image : Image :=
  {| img_size := (1, 1)%Z; img_format := None;
     img_getexif := Some [(271%Z, Some (VOther "Canon")); (272%Z, None)] |}.

Definition sample_open (b : list byte) : option Image :=
  if bytes_eqb b jpeg_bytes then Some plain_image
  else if bytes_eqb b tagged_bytes then Some tagged_image
  else if bytes_eqb b broken_tag_bytes then Some broken_tag_image
  else None.

Definition sample_tags (tag_id : Z) : option string :=
  if (tag_id =? 271)%Z then Some "Make"
  else if (tag_id =? 37500)%Z then Some "MakerNote"
  else if (tag_id =? 34853)%Z then Some "GPSInfo"
  else None.

(** [str] gives an object of another type its name; on the rest it raises. *)
Definition sample_str (v : ExifValue) : option string :=
  match v with
  | VOther o => Some o
  | _ => None
  end.

(** Standard output in UTF-8 encodes every string but one that holds a lone
    surrogate, whose three bytes start with ED and go on with A0 or more. *)
Fixpoint no_surrogate (s : string) : bool :=
  match s with
  | String c (String d _ as rest) =>
      negb ((nat_of_ascii c =? 237)%nat && (160 <=? nat_of_ascii d)%nat)
      && no_surrogate rest
  | _ => true
  end.

(** A plain bucket name: 1 to 255 characters among letters, digits, dot,
    hyphen and underscore. *)
Definition bucket_char (c : ascii) : bool :=
  let n := nat_of_ascii c in
  ((97 <=? n) && (n <=? 122) || (65 <=? n) && (n <=? 90) || (48 <=? n) && (n <=? 57)
   || (n =? 46) || (n =? 45) || (n =? 95))%nat.

Fixpoint all_chars (f : ascii -> bool) (s : string) : bool :=
  match s with
  | EmptyString => true
  | String c s' => f c && all_chars f s'
  end.

Definition plain_bucket_name (s : string) : bool :=
  (1 <=? String.length s)%nat && (String.length s <=? 255)%nat && all_chars bucket_char s.

Definition libs : Libs :=
  {| json_loads := sample_loads;
     Image_open := sample_open;
     TAGS := sample_tags;
     py_str := sample_str;
     bytes_decode_replace := String.string_of_list_byte;
     json_escape := quote;
     printable := no_surrogate;
     valid_bucket_name := plain_bucket_name |}.

Definition record_of (text : string) : Json := JObj [("body", JStr text)].

(** A store holding the source image, whose declared size is not the number
    of bytes held. *)
Definition source_object : S3Object :=
  {| obj_body := jpeg_bytes; obj_content_length := Some 1000%Z;
     obj_content_type := "image/jpeg" |}.

Definition store_with (faults : list (option S3Error)) : S3 :=
  {| s3_objects := {[ ("b", "incoming/photos/a.jpg") := source_object ]};
     s3_faults := faults;
     s3_calls := [] |}.

Definition store : S3 := store_with [].

Definition no_environ : gmap string string := ∅.

(** Scenario A: the work item of [good_text], run against [store]. *)
Definition scenario_A : option Outcome * S3 :=
  process_one (L := libs) "incoming/" "metadata/"
    (JStr "b") (JStr "incoming/photos/a.jpg") (JStr "e1") store.

Definition processed_store : S3 := snd scenario_A.

(** A batch of four records: processable, malformed, filtered, repeated. *)
Definition batch_event : Event :=
  {| Records := Some [record_of good_text; record_of missing_key_text;
                      record_of pdf_text; record_of good_text] |}.

Definition batch_result : option Response * S3 :=
  metadata_handler (L := libs) no_environ batch_event store.

End Sample.

(** ** Conditions on stores and records *)

(** No request to come is scheduled to raise an exception other than a
    [ClientError]. *)
Definition no_other_exception (s : S3) : Prop :=
  Forall (fun fault => fault <> Some OtherException) (s3_faults s).

(** From [s] to [s'] no object under an image key has changed and no object
    has gone. *)
Definition keeps_images (s s' : S3) : Prop :=
  (forall b k, _is_allowed_image_key k = true ->
               s3_objects s' !! (b, k) = s3_objects s !! (b, k))
  /\ (forall bk, is_Some (s3_objects s !! bk) -> is_Some (s3_objects s' !! bk)).

(** The envelope of the record, if it parses, has for bucket a [str] the
    client accepts and for key a [str] whose output key can be printed. *)
Definition well_typed_envelope `{L : Libs} (input_prefix output_prefix : string)
    (record : Json) : Prop :=
  match parse_envelope record with
  | Some (JStr b, JStr k, _) =>
      valid_bucket_name b = true
      /\ printable (_build_metadata_key k input_prefix output_prefix) = true
  | Some _ => False
  | None => True
  end.

(** The outcome of a well typed item as read off the objects held. *)
Definition store_outcome `{L : Libs} (input_prefix output_prefix b k : string)
    (objects : gmap (string * string) S3Object) : Outcome :=
  if negb (Str.startswith k input_prefix) || negb (_is_allowed_image_key k)
  then Skipped
  else
    match objects !! (b, _build_metadata_key k input_prefix output_prefix) with
    | Some _ => Skipped
    | None =>
        match objects !! (b, k) with
        | None => Errored
        | Some obj =>
            match decode_step (obj_body obj) with
            | None => Errored
            | Some _ => Processed
            end
        end
    end.

(** ** [_env] and [ingest_handler] *)

(** [urllib.parse.unquote_plus] on a [str]. *)
Class UrlLib : Type := {
  unquote_plus : string -> string
}.

(** The state behind the global [sqs]: the messages sent so far as (queue
    url, body), oldest first, and for the requests to come whether
    [send_message] raises ([true]); a request past the end of the list goes
    through. *)
Record Sqs : Type := {
  sqs_sent : list (string * string);
  sqs_faults : list bool
}.

(** [sqs.send_message(QueueUrl=queue_url, MessageBody=body)]; [None] when it
    raises. *)
Definition send_message (queue_url body : string) (q : Sqs) : option unit * Sqs :=
  match sqs_faults q with
  | true :: faults => (None, {| sqs_sent := sqs_sent q; sqs_faults := faults |})
  | faults =>
      (Some (), {| sqs_sent := (sqs_sent q ++ [(queue_url, body)])%list;
                   sqs_faults := tail faults |})
  end.

(** [_env(name, default)]; [None] when it raises [RuntimeError]. *)
Definition _env (environ : gmap string string) (name : string)
    (default_value : option string) : option string :=
  let val :=
    match environ !! name with
    | Some v => Some v
    | None => default_value
    end in
  match val with
  | None => None
  | Some EmptyString => None
  | Some v => Some v
  end.

(** [bool(j)] *)
Definition py_truthy (j : Json) : bool :=
  match j with
  | JNull => false
  | JBool b => b
  | JNum n => negb (n =? 0)%Z
  | JFloat text => negb (String.eqb text "0.0" || String.eqb text "-0.0")
  | JStr EmptyString => false
  | JStr _ => true
  | JArr [] => false
  | JArr _ => true
  | JObj [] => false
  | JObj _ => true
  end.

(** ** The event as the runtime passes it

    [event] is a dict; both handlers loop over
    [event.get("Records", []) or []]. *)

(** A byte that continues a character in UTF-8. *)
Definition continuation_byte (c : ascii) : bool :=
  Nat.leb 128 (nat_of_ascii c) && Nat.ltb (nat_of_ascii c) 192.

(** The characters of a [str], each as a [str] of length one: a character
    starts at every byte that is not a continuation byte. *)
Fixpoint characters (s : string) : list string :=
  match s with
  | EmptyString => []
  | String c rest =>
      match characters rest with
      | String c' tail :: more =>
          if continuation_byte c' then String c (String c' tail) :: more
          else String c EmptyString :: String c' tail :: more
      | more => String c EmptyString :: more
      end
  end.

(** The items a [for] loop over [v] visits: the elements of a list, the
    characters of a [str], the keys of a dict; [None] when [v] is not
    iterable and the loop raises [TypeError]. *)
Definition py_iter (v : Json) : option (list Json) :=
  match v with
  | JArr xs => Some xs
  | JStr text => Some (JStr <$> characters text)
  | JObj kvs => Some (JStr <$> map fst kvs)
  | JNull | JBool _ | JNum _ | JFloat _ => None
  end.

(** The records the loop of a handler visits, [None] when
    [event.get("Records", []) or []] cannot be iterated. *)
Definition event_records (event : PyDict) : option (list Json) :=
  match dict_get event "Records" with
  | Some v => if py_truthy v then py_iter v else Some []
  | None => Some []
  end.

(** [metadata_handler(event, context)] on the dict [event].  [len] of the
    value looped over raises on the values [for] raises on. *)
Definition metadata_handler_event `{L : Libs} (environ : gmap string string)
    (event : PyDict) (s : S3) : option Response * S3 :=
  match event_records event with
  | Some records => metadata_handler environ {| Records := Some records |} s
  | None => (None, s)
  end.

Module Ingest.

Section Model.

Context `{L : Libs} `{U : UrlLib}.

(** [json.dumps(obj)]: members in insertion order, on one line. *)
Fixpoint json_dumps (j : Json) : string :=
  match j with
  | JNull => "null"
  | JBool true => "true"
  | JBool false => "false"
  | JNum n => pretty n
  | JFloat text => text
  | JStr s => json_escape s
  | JArr xs => "[" +:+ String.concat ", " (map json_dumps xs) +:+ "]"
  | JObj kvs =>
      "{" +:+ String.concat ", "
                (map (fun kv => json_escape (fst kv) +:+ ": " +:+ json_dumps (snd kv)) kvs)
      +:+ "}"
  end.

(** The [try] of the loop body: bucket, key and etag of one notification.
    [None] when an exception is raised: a subscript finds no such key or is
    applied to a value that is not a dict, or the key is not a [str]. *)
Definition parse_notification (record : Json) : option (Json * string * Json) :=
  s3 ← json_field record "s3";
  bucket ← json_field s3 "bucket" ≫= (fun b => json_field b "name");
  object ← json_field s3 "object";
  raw ← json_field object "key";
  match raw with
  | JStr raw_key =>
      let upper_tag := default JNull (json_field object "eTag") in
      let etag :=
        if py_truthy upper_tag then upper_tag
        else default JNull (json_field object "etag") in
      Some (bucket, unquote_plus raw_key, etag)
  | _ => None
  end.

(** The dict [body]. *)
Definition message_body (bucket : Json) (key : string) (etag : Json) : Json :=
  JObj [("bucket", bucket); ("key", JStr key); ("etag", etag)].

(** What the two [if]s of the loop body let through. *)
Definition accepted (input_prefix key : string) : bool :=
  Str.startswith key input_prefix && _is_allowed_image_key key.

Record Response : Type := {
  statusCode : nat;
  sent : nat;
  skipped : nat
}.

(** The [for] loop, from the counters [n] (sent) and [k] (skipped).  [None]
    when [send_message] raises, or [print] on the key of a record that is
    filtered out: nothing around them catches. *)
Fixpoint run_records (queue_url input_prefix : string) (records : list Json)
    (n k : nat) (q : Sqs) : option (nat * nat) * Sqs :=
  match records with
  | [] => (Some (n, k), q)
  | record :: rest =>
      match parse_notification record with
      | None => run_records queue_url input_prefix rest n (S k) q
      | Some (bucket, key, etag) =>
          if negb (Str.startswith key input_prefix)
          then
            if negb (printable key) then (None, q)    (* print("SKIP: ...", key) raises *)
            else run_records queue_url input_prefix rest n (S k) q
          else if negb (_is_allowed_image_key key)
          then
            if negb (printable key) then (None, q)    (* print("SKIP: ...", key) raises *)
            else run_records queue_url input_prefix rest n (S k) q
          else
            match send_message queue_url (json_dumps (message_body bucket key etag)) q with
            | (Some _, q') => run_records queue_url input_prefix rest (S n) k q'
            | (None, q') => (None, q')
            end
      end
  end.

(** [ingest_handler(event, context)], in the process environment [environ]
    and against the queue service [q].  The result is [None] when the call
    raises. *)
Definition ingest_handler (environ : gmap string string) (event : Event) (q : Sqs)
    : option Response * Sqs :=
  match _env environ "QUEUE_URL" None with
  | None => (None, q)
  | Some queue_url =>
      let input_prefix := environ_get environ "INPUT_PREFIX" "incoming/" in
      match run_records queue_url input_prefix (default [] (Records event)) 0 0 q with
      | (Some (n, k), q') => (Some {| statusCode := 200; sent := n; skipped := k |}, q')
      | (None, q') => (None, q')
      end
  end.

(** [ingest_handler(event, context)] on the dict [event]: nothing is sent
    when [QUEUE_URL] is unusable or the value looped over is not iterable. *)
Definition ingest_handler_event (environ : gmap string string) (event : PyDict) (q : Sqs)
    : option Response * Sqs :=
  match event_records event with
  | Some records => ingest_handler environ {| Records := Some records |} q
  | None => (None, q)
  end.

(** The message the loop body sends for a record, if it sends one. *)
Definition message_of (input_prefix : string) (record : Json) : option string :=
  match parse_notification record with
  | Some (bucket, key, etag) =>
      if accepted input_prefix key
      then Some (json_dumps (message_body bucket key etag))
      else None
  | None => None
  end.

(** The key of the record can be printed if the record is filtered out. *)
Definition skip_printable (input_prefix : string) (record : Json) : Prop :=
  match parse_notification record with
  | Some (_, key, _) => accepted input_prefix key = true \/ printable key = true
  | None => True
  end.

End Model.

End Ingest.

(** ** Sample inputs of the ingestion stage *)

Module SampleIngest.

(** [unquote_plus] on a key without a percent sign: every [+] becomes a
    space. *)
Definition plus_to_space (s : string) : string :=
  Str.map_chars (fun c => if Ascii.eqb c "+" then " "%char else c) s.

Definition url_lib : UrlLib := {| unquote_plus := plus_to_space |}.

(** The notification S3 sends for an object. *)
Definition notification (bucket : Json) (key : Json) (tags : list (string * Json)) : Json :=
  JObj [("s3", JObj [("bucket", JObj [("name", bucket)]);
                     ("object", JObj (("key", key) :: tags))])].

Definition photo : Json :=
  notification (JStr "b") (JStr "incoming/my+photos/a.JPG") [("eTag", JStr "e1")].
Definition document : Json :=
  notification (JStr "b") (JStr "incoming/doc.pdf") [("eTag", JStr "e2")].
Definition elsewhere : Json :=
  notification (JStr "b") (JStr "outgoing/a.jpg") [("etag", JStr "e3")].
Definition second_photo : Json :=
  notification (JStr "b") (JStr "incoming/b.png") [("eTag", JStr EmptyString); ("etag", JStr "e4")].
Definition no_object : Json := JObj [("s3", JObj [("bucket", JObj [("name", JStr "b")])])].
Definition plain_photo : Json :=
  notification (JStr "b") (JStr "incoming/photos/a.jpg") [("eTag", JStr "e1")].

Definition environ : gmap string string := {[ "QUEUE_URL" := "https://queue" ]}.

Definition event : Event :=
  {| Records := Some [photo; document; no_object; elsewhere; second_photo] |}.

Definition queue_with (faults : list bool) : Sqs :=
  {| sqs_sent := []; sqs_faults := faults |}.

Definition run : option Ingest.Response * Sqs :=
  Ingest.ingest_handler (L := Sample.libs) (U := url_lib) environ event (queue_with []).

End SampleIngest.

(** ** Sample tags that share a name *)

Module SampleTags.

(** A table that has one name for every tag id. *)
Definition libs : Libs :=
  {| json_loads := Sample.sample_loads;
     Image_open := Sample.sample_open;
     TAGS := fun _ => Some "Tag";
     py_str := Sample.sample_str;
     bytes_decode_replace := String.string_of_list_byte;
     json_escape := Sample.quote;
     printable := Sample.no_surrogate;
     valid_bucket_name := Sample.plain_bucket_name |}.

Definition image : Image :=
  {| img_size := (1, 1)%Z; img_format := None;
     img_getexif := Some [(1%Z, Some (VOther "first")); (2%Z, Some (VOther "second"))] |}.

End SampleTags.

(** * Properties *)

(** ** Strings and the key mapper *)

Lemma drop_length_app (p s : string) : Str.drop (String.length p) (p +:+ s) = s.
Proof. induction p as [|c p IH]; simpl; [reflexivity | exact IH]. Qed.

Lemma startswith_app (p s : string) : Str.startswith (p +:+ s) p = true.
Proof.
  unfold Str.startswith. induction p as [|c p IH]; simpl.
  - destruct s; reflexivity.
  - destruct (Ascii.ascii_dec c c) as [_|Hne]; [exact IH | contradiction].
Qed.

(** A key that carries the input prefix has exactly that prefix replaced. *)
Lemma build_metadata_key_app (p q rel : string) :
  _build_metadata_key (p +:+ rel) p q = q +:+ rel +:+ ".json".
Proof.
  unfold _build_metadata_key. rewrite startswith_app, drop_length_app. reflexivity.
Qed.

(** C4: if [inputKey] starts with [inputPrefix] the key mapper returns
    [outputPrefix + inputKey[len(inputPrefix):] + ".json"], in which the
    prefix is gone; otherwise it returns [outputPrefix + inputKey + ".json"];
    and equal inputs give equal outputs. *)
Theorem build_metadata_key_spec (input_key input_prefix output_prefix : string) :
  (Str.startswith input_key input_prefix = true ->
     _build_metadata_key input_key input_prefix output_prefix
     = output_prefix +:+ Str.drop (String.length input_prefix) input_key +:+ ".json"
     /\ input_key = input_prefix +:+ Str.drop (String.length input_prefix) input_key)
  /\ (Str.startswith input_key input_prefix = false ->
        _build_metadata_key input_key input_prefix output_prefix
        = output_prefix +:+ input_key +:+ ".json")
  /\ (forall k p q, k = input_key -> p = input_prefix -> q = output_prefix ->
        _build_metadata_key k p q
        = _build_metadata_key input_key input_prefix output_prefix).
Proof.
  unfold _build_metadata_key. split; [|split].
  - intros H. split; [rewrite H; reflexivity|].
    revert input_key H. unfold Str.startswith.
    induction input_prefix as [|c p IH]; intros [|d k] H; simpl in *;
      try reflexivity; try discriminate.
    destruct (Ascii.ascii_dec c d) as [->|]; [|discriminate].
    change (String d p +:+ Str.drop (String.length p) k)
      with (String d (p +:+ Str.drop (String.length p) k)).
    f_equal. apply IH, H.
  - intros H. rewrite H. reflexivity.
  - intros k p q -> -> ->. reflexivity.
Qed.

(** ** The S3 client *)

Section ClientProperties.

Context `{L : Libs}.

Lemma s3_call_calls {A : Type} (call : S3Call) (bucket : Json)
    (serve : string -> gmap (string * string) S3Object ->
             Res A * gmap (string * string) S3Object) (s : S3) :
  s3_calls (snd (s3_call call bucket serve s)) = (s3_calls s ++ [call])%list.
Proof.
  unfold s3_call.
  destruct bucket; try reflexivity.
  destruct (valid_bucket_name s0); [|reflexivity].
  destruct (s3_faults s) as [|[e|] fs]; try reflexivity;
    destruct (serve _ _); reflexivity.
Qed.

Lemma head_object_inv bucket key s r s1 :
  head_object bucket key s = (r, s1) ->
  s3_objects s1 = s3_objects s
  /\ s3_calls s1 = (s3_calls s ++ [CallHead bucket key])%list
  /\ match r with
     | Ok _ => exists b, bucket = JStr b /\ is_Some (s3_objects s !! (b, key))
                         /\ answered_from_store s
     | Raise _ => True
     end.
Proof.
  unfold head_object, s3_call, answered_from_store. intros H.
  destruct bucket; try (injection H as <- <-; auto).
  destruct (valid_bucket_name s0); [|injection H as <- <-; auto].
  destruct (s3_faults s) as [|[e|] fs] eqn:Hf; simpl in H;
    try (destruct (s3_objects s !! (s0, key)) eqn:Ho);
    injection H as <- <-; simpl; repeat split; eauto.
Qed.

Lemma head_object_present b key s :
  valid_bucket_name b = true ->
  is_Some (s3_objects s !! (b, key)) -> answered_from_store s ->
  exists s1, head_object (JStr b) key s = (Ok (), s1)
             /\ s3_objects s1 = s3_objects s
             /\ s3_calls s1 = (s3_calls s ++ [CallHead (JStr b) key])%list.
Proof.
  unfold head_object, s3_call, answered_from_store. intros -> [obj Ho] Hf.
  destruct (s3_faults s) as [|[e|] fs]; simpl in *; try discriminate;
    rewrite Ho; eauto.
Qed.

Lemma get_object_inv bucket key s r s1 :
  get_object bucket key s = (r, s1) ->
  s3_objects s1 = s3_objects s
  /\ s3_calls s1 = (s3_calls s ++ [CallGet bucket key])%list
  /\ match r with
     | Ok obj => exists b, bucket = JStr b /\ s3_objects s !! (b, key) = Some obj
     | Raise _ => True
     end.
Proof.
  unfold get_object, s3_call. intros H.
  destruct bucket; try (injection H as <- <-; auto).
  destruct (valid_bucket_name s0); [|injection H as <- <-; auto].
  destruct (s3_faults s) as [|[e|] fs] eqn:Hf; simpl in H;
    try (destruct (s3_objects s !! (s0, key)) eqn:Ho);
    injection H as <- <-; simpl; repeat split; eauto.
Qed.

Lemma put_object_inv bucket key body ctype s r s1 :
  put_object bucket key body ctype s = (r, s1) ->
  s3_calls s1 = (s3_calls s ++ [CallPut bucket key body ctype])%list
  /\ match r with
     | Ok _ => exists b, bucket = JStr b
         /\ s3_objects s1 = <[(b, key) := written_object body ctype]> (s3_objects s)
     | Raise _ => s3_objects s1 = s3_objects s
     end.
Proof.
  unfold put_object, s3_call. intros H.
  destruct bucket; try (injection H as <- <-; auto).
  destruct (valid_bucket_name s0); [|injection H as <- <-; auto].
  destruct (s3_faults s) as [|[e|] fs] eqn:Hf; simpl in H;
    injection H as <- <-; simpl; repeat split; eauto.
Qed.

(** A method that does not end in [OtherException] was called with a bucket
    the client accepts. *)
Lemma s3_call_accepted {A : Type} (call : S3Call) (bucket : Json)
    (serve : string -> gmap (string * string) S3Object ->
             Res A * gmap (string * string) S3Object) (s : S3) r s1 :
  s3_call call bucket serve s = (r, s1) ->
  r <> Raise OtherException ->
  exists b, bucket = JStr b /\ valid_bucket_name b = true.
Proof.
  unfold s3_call. intros H Hr. cbv zeta in H.
  destruct bucket; try (injection H as Hraise _; symmetry in Hraise; contradiction).
  destruct (valid_bucket_name s0) eqn:Hvalid; [exists s0; split; [reflexivity | exact Hvalid]|].
  injection H as Hraise _. symmetry in Hraise. contradiction.
Qed.

End ClientProperties.

(** ** One work item *)

Section Properties.

Context `{L : Libs}.

(** The steps of a run of [fetch_decode_write] that ends in [Processed]. *)
Lemma fetch_decode_write_steps bucket key out_key etag s s' :
  fetch_decode_write bucket key out_key etag s = (Some Processed, s') ->
  exists img_bytes content_len s1 width height fmt exif_data,
    fetch_step bucket key s = (Some (img_bytes, content_len), s1)
    /\ decode_step img_bytes = Some (width, height, fmt, exif_data)
    /\ put_object bucket out_key
         (encode_utf8 (json_dumps_sorted 2
            (metadata_dict bucket key etag fmt width height content_len exif_data)))
         "application/json" s1 = (Ok (), s').
Proof.
  unfold fetch_decode_write. intros H.
  destruct (fetch_step bucket key s) as [[[img_bytes content_len]|] s1]; [|discriminate].
  destruct (decode_step img_bytes) as [[[[width height] fmt] exif_data]|] eqn:Hdec;
    [|discriminate].
  match type of H with context [put_object ?b ?k ?body ?ct ?s] =>
    destruct (put_object b k body ct s) as [[[]|e] s2] eqn:Hput end; [|discriminate].
  injection H as <-. eauto 10.
Qed.

(** The fetch step reports the bytes held for the key and the size the store
    declares for them, and the number of bytes only when none is declared. *)
Lemma fetch_step_inv bucket key s img_bytes content_len s1 :
  fetch_step bucket key s = (Some (img_bytes, content_len), s1) ->
  exists b obj,
    bucket = JStr b
    /\ s3_objects s !! (b, key) = Some obj
    /\ img_bytes = obj_body obj
    /\ content_len = default (Z.of_nat (length (obj_body obj))) (obj_content_length obj)
    /\ s3_objects s1 = s3_objects s
    /\ s3_calls s1 = (s3_calls s ++ [CallGet bucket key])%list.
Proof.
  unfold fetch_step. intros H.
  destruct (get_object bucket key s) as [[obj|e] s0] eqn:Hget; [|discriminate].
  injection H as <- <- <-.
  apply get_object_inv in Hget as (Hobjs & Hcalls & b & -> & Hobj).
  eauto 10.
Qed.

(** What a run that ends in [Processed] did from [get_object] on: the source
    object was read from the store, decoded, and the record assembled from
    it was written under the output key. *)
Lemma fetch_decode_write_Processed_inv bucket key out_key etag s s' :
  fetch_decode_write bucket key out_key etag s = (Some Processed, s') ->
  exists b obj width height fmt exif_data,
    bucket = JStr b
    /\ s3_objects s !! (b, key) = Some obj
    /\ decode_step (obj_body obj) = Some (width, height, fmt, exif_data)
    /\ let content_len :=
         default (Z.of_nat (length (obj_body obj))) (obj_content_length obj) in
       let body :=
         encode_utf8 (json_dumps_sorted 2
           (metadata_dict bucket key etag fmt width height content_len exif_data)) in
       s3_calls s' = (s3_calls s ++ [CallGet bucket key;
                                     CallPut bucket out_key body "application/json"])%list
       /\ s3_objects s'
          = <[(b, out_key) := written_object body "application/json"]> (s3_objects s).
Proof.
  intros H.
  apply fetch_decode_write_steps in H
    as (img_bytes & content_len & s1 & width & height & fmt & exif_data
        & Hfetch & Hdec & Hput).
  apply fetch_step_inv in Hfetch as (b & obj & -> & Hobj & -> & -> & Hobjs1 & Hcalls1).
  apply put_object_inv in Hput as (Hcalls2 & b' & Hb & Hobjs2).
  injection Hb as <-.
  exists b, obj, width, height, fmt, exif_data. repeat split; auto.
  - rewrite Hcalls2, Hcalls1, <- app_assoc. reflexivity.
  - rewrite Hobjs2, Hobjs1. reflexivity.
Qed.

(** The steps of a run of [process_one] that ends in [Processed]: the key is
    a [str] that passes validation, the existence check raised a
    [ClientError] with a not-found code, and the rest of the body ran. *)
Lemma process_one_steps input_prefix output_prefix bucket key etag s s' :
  process_one input_prefix output_prefix bucket key etag s = (Some Processed, s') ->
  exists k code s1,
    key = JStr k
    /\ Str.startswith k input_prefix = true
    /\ _is_allowed_image_key k = true
    /\ head_object bucket (_build_metadata_key k input_prefix output_prefix) s
       = (Raise (ClientError code), s1)
    /\ Str.mem code ["404"; "NoSuchKey"; "NotFound"] = true
    /\ fetch_decode_write bucket k (_build_metadata_key k input_prefix output_prefix)
         etag s1 = (Some Processed, s').
Proof.
  unfold process_one. intros H.
  destruct key as [| | | |k| |]; try discriminate.
  destruct (Str.startswith k input_prefix) eqn:Hpre; [|discriminate].
  destruct (_is_allowed_image_key k) eqn:Hext; [|discriminate].
  cbn [negb orb] in H.
  destruct (printable (_build_metadata_key k input_prefix output_prefix));
    [|discriminate].
  cbn [negb] in H.
  destruct (head_object bucket (_build_metadata_key k input_prefix output_prefix) s)
    as [[u|[code|]] s1] eqn:Hhead; try discriminate.
  destruct (Str.mem code _) eqn:Hcode; [|discriminate]. cbn [negb] in H.
  eauto 10.
Qed.

(** A run that ends in an outcome after the validation let the key through
    printed the output key and called the client with a bucket it accepts. *)
Lemma process_one_accepted input_prefix output_prefix bucket k etag s o s' :
  process_one input_prefix output_prefix bucket (JStr k) etag s = (Some o, s') ->
  Str.startswith k input_prefix = true ->
  _is_allowed_image_key k = true ->
  printable (_build_metadata_key k input_prefix output_prefix) = true
  /\ exists b, bucket = JStr b /\ valid_bucket_name b = true.
Proof.
  unfold process_one. intros H Hpre Hext. rewrite Hpre, Hext in H. cbn [negb orb] in H.
  destruct (printable (_build_metadata_key k input_prefix output_prefix));
    [|discriminate].
  cbn [negb] in H. split; [reflexivity|].
  destruct (head_object bucket (_build_metadata_key k input_prefix output_prefix) s)
    as [r s1] eqn:Hhead.
  apply (s3_call_accepted _ _ _ _ _ _ Hhead).
  intros ->. discriminate.
Qed.

(** The whole of a run that ends in [Processed]: the item is well typed and
    passes validation, and the three calls made are the existence check, the
    fetch of the source object and the write of the record. *)
Lemma process_one_Processed_inv input_prefix output_prefix bucket key etag s s' :
  process_one input_prefix output_prefix bucket key etag s = (Some Processed, s') ->
  exists b k obj width height fmt exif_data,
    bucket = JStr b /\ key = JStr k
    /\ Str.startswith k input_prefix = true
    /\ _is_allowed_image_key k = true
    /\ s3_objects s !! (b, k) = Some obj
    /\ decode_step (obj_body obj) = Some (width, height, fmt, exif_data)
    /\ let out_key := _build_metadata_key k input_prefix output_prefix in
       let content_len :=
         default (Z.of_nat (length (obj_body obj))) (obj_content_length obj) in
       let body :=
         encode_utf8 (json_dumps_sorted 2
           (metadata_dict bucket k etag fmt width height content_len exif_data)) in
       s3_calls s' = (s3_calls s ++ [CallHead bucket out_key;
                                     CallGet bucket k;
                                     CallPut bucket out_key body "application/json"])%list
       /\ s3_objects s'
          = <[(b, out_key) := written_object body "application/json"]> (s3_objects s).
Proof.
  intros H.
  apply process_one_steps in H as (k & code & s1 & -> & Hpre & Hext & Hhead & _ & H).
  apply head_object_inv in Hhead as (Hobjs1 & Hcalls1 & _).
  apply fetch_decode_write_Processed_inv in H
    as (b & obj & width & height & fmt & exif_data & -> & Hobj & Hdec & Hcalls & Hobjs).
  exists b, k, obj, width, height, fmt, exif_data.
  rewrite Hobjs1 in Hobj, Hobjs. rewrite Hcalls1, <- app_assoc in Hcalls.
  repeat split; assumption.
Qed.

(** What the existence check decides for an item that passes validation. *)
Lemma existence_check_decides input_prefix output_prefix bucket k etag s r s1 :
  Str.startswith k input_prefix = true ->
  _is_allowed_image_key k = true ->
  printable (_build_metadata_key k input_prefix output_prefix) = true ->
  head_object bucket (_build_metadata_key k input_prefix output_prefix) s = (r, s1) ->
  process_one input_prefix output_prefix bucket (JStr k) etag s
  = match r with
    | Ok _ => (Some Skipped, s1)
    | Raise (ClientError code) =>
        if Str.mem code ["404"; "NoSuchKey"; "NotFound"]
        then fetch_decode_write bucket k
               (_build_metadata_key k input_prefix output_prefix) etag s1
        else (Some Errored, s1)
    | Raise OtherException => (None, s1)
    end.
Proof.
  intros Hpre Hext Hprint Hhead. unfold process_one.
  rewrite Hpre, Hext, Hprint, Hhead. cbn [negb orb].
  destruct r as [u|[code|]]; try reflexivity.
  destruct (Str.mem code _); reflexivity.
Qed.

(** C1: when a first run on a work item ends in [Processed], a second run on
    the same item against the resulting store, whose existence check is
    answered from the objects held, ends in [Skipped]; it makes the existence
    check and no other call, and leaves every object, the record under the
    output key among them, as the first run left it. *)
Theorem process_one_idempotent input_prefix output_prefix bucket key etag s s1 :
  process_one input_prefix output_prefix bucket key etag s = (Some Processed, s1) ->
  answered_from_store s1 ->
  exists b k s2,
    bucket = JStr b /\ key = JStr k
    /\ process_one input_prefix output_prefix bucket key etag s1 = (Some Skipped, s2)
    /\ is_Some (s3_objects s1 !! (b, _build_metadata_key k input_prefix output_prefix))
    /\ s3_objects s2 !! (b, _build_metadata_key k input_prefix output_prefix)
       = s3_objects s1 !! (b, _build_metadata_key k input_prefix output_prefix)
    /\ s3_objects s2 = s3_objects s1
    /\ s3_calls s2
       = (s3_calls s1
          ++ [CallHead bucket (_build_metadata_key k input_prefix output_prefix)])%list.
Proof.
  intros H Hanswered.
  pose proof H as Hrun.
  apply process_one_Processed_inv in H
    as (b & k & obj & width & height & fmt & exif_data
        & -> & -> & Hpre & Hext & _ & _ & _ & Hobjs).
  destruct (process_one_accepted _ _ _ _ _ _ _ _ Hrun Hpre Hext)
    as (Hprint & b' & Hb & Hvalid).
  injection Hb as <-.
  assert (Hheld : is_Some
            (s3_objects s1 !! (b, _build_metadata_key k input_prefix output_prefix))).
  { rewrite Hobjs, lookup_insert_eq. eauto. }
  destruct (head_object_present b _ s1 Hvalid Hheld Hanswered)
    as (s2 & Hhead & Hobjs2 & Hcalls2).
  exists b, k, s2.
  rewrite (existence_check_decides _ _ _ _ _ _ _ _ Hpre Hext Hprint Hhead), Hobjs2.
  repeat split; auto.
Qed.

(** C5: in a run that ends in [Processed], the [file_size_bytes] of the
    record written is the [content_len] the fetch step returned, which is
    the content length the store declares for the source object whenever it
    declares one, whatever the number of bytes fetched. *)
Theorem file_size_is_fetched_size input_prefix output_prefix bucket key etag s s' :
  process_one input_prefix output_prefix bucket key etag s = (Some Processed, s') ->
  exists b k s1 s2 img_bytes content_len width height fmt exif_data,
    bucket = JStr b /\ key = JStr k
    /\ fetch_step bucket k s1 = (Some (img_bytes, content_len), s2)
    /\ (forall obj n, s3_objects s !! (b, k) = Some obj ->
                      obj_content_length obj = Some n -> content_len = n)
    /\ let metadata :=
         metadata_dict bucket k etag fmt width height content_len exif_data in
       json_field metadata "file_size_bytes" = Some (JNum content_len)
       /\ put_object bucket (_build_metadata_key k input_prefix output_prefix)
            (encode_utf8 (json_dumps_sorted 2 metadata)) "application/json" s2
          = (Ok (), s').
Proof.
  intros H.
  apply process_one_steps in H as (k & code & s1 & -> & _ & _ & Hhead & _ & H).
  apply head_object_inv in Hhead as (Hobjs1 & _ & _).
  apply fetch_decode_write_steps in H
    as (img_bytes & content_len & s2 & width & height & fmt & exif_data
        & Hfetch & _ & Hput).
  destruct (fetch_step_inv _ _ _ _ _ _ Hfetch)
    as (b & obj & -> & Hobj & _ & Hlen & _ & _).
  exists b, k, s1, s2, img_bytes, content_len, width, height, fmt, exif_data.
  repeat split; auto.
  intros obj' n Hobj' Hn. rewrite Hobjs1, Hobj' in Hobj. injection Hobj as ->.
  rewrite Hlen, Hn. reflexivity.
Qed.

(** [sort_items] rearranges the items it is given, in ascending key order. *)
Lemma insert_item_perm item sorted : insert_item item sorted ≡ₚ item :: sorted.
Proof.
  induction sorted as [|item' rest IH]; simpl; [reflexivity|].
  destruct (String.ltb item.1 item'.1); [reflexivity|].
  rewrite IH. apply Permutation_swap.
Qed.

Lemma sort_items_perm items : sort_items items ≡ₚ items.
Proof.
  unfold sort_items. rewrite <- (app_nil_r items) at 2. generalize (@nil (string * string)).
  induction items as [|item items IH]; intros acc; simpl; [reflexivity|].
  rewrite IH, insert_item_perm. symmetry. apply Permutation_middle.
Qed.

Lemma ltb_asym (a b : string) : String.ltb a b = true -> String.ltb b a = false.
Proof.
  unfold String.ltb. rewrite (String.compare_antisym b a).
  destruct (String.compare a b); simpl; congruence.
Qed.

Lemma insert_item_sorted item sorted :
  Sorted (fun a b => String.ltb b.1 a.1 = false) sorted ->
  Sorted (fun a b => String.ltb b.1 a.1 = false) (insert_item item sorted).
Proof.
  induction 1 as [|item' rest Hrest IH Hhd]; simpl.
  - repeat constructor.
  - destruct (String.ltb item.1 item'.1) eqn:Hlt.
    + repeat constructor; auto using ltb_asym.
    + constructor; [exact IH|].
      destruct Hhd as [|item'' rest' Hle]; simpl.
      * repeat constructor. exact Hlt.
      * destruct (String.ltb item.1 item''.1); constructor; assumption.
Qed.

Lemma sort_items_sorted items :
  Sorted (fun a b => String.ltb b.1 a.1 = false) (sort_items items).
Proof.
  unfold sort_items.
  assert (Hnil : Sorted (fun a b : string * string => String.ltb b.1 a.1 = false) [])
    by constructor.
  revert Hnil. generalize (@nil (string * string)).
  induction items as [|item items IH]; intros acc Hacc; simpl; [exact Hacc|].
  apply IH, insert_item_sorted, Hacc.
Qed.

(** The serialized record has the layout of the output file format. *)
Lemma metadata_layout bucket key etag fmt width height content_len exif_data :
  json_dumps_sorted 2
    (metadata_dict bucket key etag fmt width height content_len exif_data)
  = record_layout bucket key etag fmt width height content_len exif_data.
Proof. reflexivity. Qed.

(** Induction on a JSON value whose hypotheses cover the elements of an
    array and the values of an object. *)
Lemma Json_forall_ind (P : Json -> Prop) :
  P JNull -> (forall b, P (JBool b)) -> (forall n, P (JNum n)) ->
  (forall text, P (JFloat text)) -> (forall s, P (JStr s)) ->
  (forall xs, Forall P xs -> P (JArr xs)) ->
  (forall kvs, Forall (fun kv => P (snd kv)) kvs -> P (JObj kvs)) ->
  forall j, P j.
Proof.
  intros Hnull Hbool Hnum Hfloat Hstr Harr Hobj.
  fix IH 1. intros [ | b | n | text | s | xs | kvs];
    [exact Hnull | apply Hbool | apply Hnum | apply Hfloat | apply Hstr | | ].
  - apply Harr. induction xs as [|x xs IHxs]; constructor; [apply IH | exact IHxs].
  - apply Hobj. induction kvs as [|[k v] kvs IHkvs]; constructor; [apply IH | exact IHkvs].
Qed.

Lemma concat_empty_cons (x : string) (l : list string) :
  String.concat EmptyString (x :: l) = x +:+ String.concat EmptyString l.
Proof.
  destruct l as [|y l]; cbn [String.concat]; [|reflexivity].
  induction x as [|c x IH]; [reflexivity|].
  change (String c x +:+ EmptyString) with (String c (x +:+ EmptyString)). f_equal. exact IH.
Qed.

(** With [indent=2] a nested line starts with two spaces per level. *)
Lemma newline_indent_two (depth : nat) : newline_indent 2 depth = line_break depth.
Proof.
  unfold newline_indent, line_break, indentation. f_equal.
  induction depth as [|depth IH]; [reflexivity|].
  replace (2 * S depth) with (S (S (2 * depth))) by lia.
  cbn [replicate]. rewrite !concat_empty_cons, IH. reflexivity.
Qed.

(** Sorting the serialized items of a dict is serializing its members in
    ascending key order. *)
Lemma insert_item_members (g : string * Json -> string * string) x acc :
  (forall kv, fst (g kv) = fst kv) ->
  Sorted key_order acc ->
  exists acc',
    acc' ≡ₚ x :: acc /\ Sorted key_order acc'
    /\ (forall a, key_order a x -> HdRel key_order a acc -> HdRel key_order a acc')
    /\ insert_item (g x) (map g acc) = map g acc'.
Proof.
  intros Hg. induction 1 as [|y acc Hacc IH Hhd].
  - exists [x]. split; [reflexivity|]. split; [repeat constructor|]. split; [|reflexivity].
    intros a Ha _. constructor. exact Ha.
  - cbn [map insert_item]. rewrite !Hg.
    destruct (String.ltb (fst x) (fst y)) eqn:Hlt.
    + exists (x :: y :: acc). split; [reflexivity|]. split; [|split; [|reflexivity]].
      * repeat constructor; auto. unfold key_order. apply ltb_asym, Hlt.
      * intros a Ha _. constructor. exact Ha.
    + destruct IH as (acc' & Hperm & Hsorted & Hhead & Heq).
      exists (y :: acc'). rewrite Heq. split; [|split; [|split; [|reflexivity]]].
      * rewrite Hperm. apply Permutation_swap.
      * constructor; [exact Hsorted|]. apply Hhead; [exact Hlt | exact Hhd].
      * intros a _ Ha. inversion Ha; subst. constructor. assumption.
Qed.

Lemma sort_items_members (g : string * Json -> string * string) kvs :
  (forall kv, fst (g kv) = fst kv) ->
  exists members,
    members ≡ₚ kvs /\ Sorted key_order members
    /\ sort_items (map g kvs) = map g members.
Proof.
  intros Hg. unfold sort_items.
  assert (H : forall kvs acc, Sorted key_order acc ->
    exists members, members ≡ₚ (kvs ++ acc)%list /\ Sorted key_order members
      /\ foldl (fun sorted item => insert_item item sorted) (map g acc) (map g kvs)
         = map g members).
  { clear kvs. induction kvs as [|x kvs IH]; intros acc Hacc.
    - exists acc. auto.
    - cbn [map foldl].
      destruct (insert_item_members g x acc Hg Hacc) as (acc' & Hperm & Hsorted & _ & Heq).
      rewrite Heq. destruct (IH acc' Hsorted) as (members & Hm & Hs & He).
      exists members. repeat split; auto.
      rewrite Hm, Hperm. cbn [app]. symmetry. apply Permutation_middle. }
  destruct (H kvs [] (Sorted_nil _)) as (members & Hm & Hs & He).
  exists members. rewrite app_nil_r in Hm. auto.
Qed.

Lemma zip_with_members (f : Json -> string) (members : list (string * Json)) :
  map (fun item : string * string => json_escape (fst item) +:+ ": " +:+ snd item)
    (map (fun kv => (fst kv, f (snd kv))) members)
  = zip_with (fun (kv : string * Json) text => json_escape (fst kv) +:+ ": " +:+ text)
      members (map f (map snd members)).
Proof.
  induction members as [|[k v] members IH]; [reflexivity|].
  cbn [map zip_with fst snd]. f_equal. exact IH.
Qed.

(** [json.dumps(j, indent=2, sort_keys=True)] is a canonical text of [j] at
    every level of nesting: two spaces per level, and the members of every
    object, nested ones included, in ascending key order. *)
Lemma json_dumps_canonical (j : Json) :
  forall depth, canonical_json depth j (json_dumps_at 2 depth j).
Proof.
  induction j as [ | b | n | text | s | xs IH | kvs IH] using Json_forall_ind; intros depth.
  - constructor.
  - destruct b; constructor.
  - constructor.
  - constructor.
  - constructor.
  - destruct xs as [|x xs]; [constructor|].
    cbn [json_dumps_at]. rewrite !newline_indent_two.
    apply canonical_array; [discriminate|].
    apply Forall2_fmap_r, Forall_Forall2_diag.
    eapply Forall_impl; [exact IH|]. intros y Hy. apply Hy.
  - destruct kvs as [|kv kvs]; [constructor|].
    cbn [json_dumps_at]. rewrite !newline_indent_two.
    destruct (sort_items_members
                (fun kv => (fst kv, json_dumps_at 2 (S depth) (snd kv))) (kv :: kvs))
      as (members & Hperm & Hsorted & Heq); [reflexivity|].
    rewrite Heq, zip_with_members.
    apply canonical_object; [discriminate | exact Hperm | exact Hsorted |].
    apply Forall2_fmap_r, Forall_Forall2_diag, Forall_fmap.
    rewrite Hperm. eapply Forall_impl; [exact IH|]. intros y Hy. apply Hy.
Qed.

(** The serialized record is the text of the output file format: the eight
    members in ascending key order, one per line behind two spaces. *)
Lemma metadata_record_text b key etag fmt width height content_len exif_data :
  json_dumps_sorted 2
    (metadata_dict (JStr b) key etag fmt width height content_len exif_data)
  = record_text (json_dumps_at 2 1 etag) (json_dumps_at 2 1 (JObj exif_data))
      (pretty content_len) (json_escape fmt) (pretty height)
      (json_escape b) (json_escape key) (pretty width).
Proof. reflexivity. Qed.

(** C7: in a run that ends in [Processed], the one write made has content
    type [application/json] and, as body, the UTF-8 encoding of one text of
    the record (the bytes of the string, which is kept in UTF-8): a JSON
    object of the eight members [etag], [exif],
    [file_size_bytes], [format], [height], [source_bucket], [source_key],
    [width] in this order, one per line behind two spaces, where the texts
    of the ETag and of the EXIF dict are canonical at nesting depth one (two
    more spaces per level, the members of every nested object in ascending
    key order); the text is a canonical text of the whole record and is what
    [json.dumps] returns for it; the object left under the output key holds
    exactly these bytes; and any other run on the same item that ends in
    [Processed] from the same source object leaves the same object there. *)
Theorem persisted_record_canonical input_prefix output_prefix bucket key etag s s' :
  process_one input_prefix output_prefix bucket key etag s = (Some Processed, s') ->
  exists b k obj width height fmt exif_data etag_text exif_text,
    bucket = JStr b /\ key = JStr k
    /\ s3_objects s !! (b, k) = Some obj
    /\ decode_step (obj_body obj) = Some (width, height, fmt, exif_data)
    /\ canonical_json 1 etag etag_text
    /\ canonical_json 1 (JObj exif_data) exif_text
    /\ let out_key := _build_metadata_key k input_prefix output_prefix in
       let content_len :=
         default (Z.of_nat (length (obj_body obj))) (obj_content_length obj) in
       let record :=
         metadata_dict bucket k etag fmt width height content_len exif_data in
       let text :=
         record_text etag_text exif_text (pretty content_len) (json_escape fmt)
           (pretty height) (json_escape b) (json_escape k) (pretty width) in
       let body := String.list_byte_of_string text in
       canonical_json 0 record text
       /\ text = json_dumps_sorted 2 record
       /\ last (s3_calls s') = Some (CallPut bucket out_key body "application/json")
       /\ s3_objects s' !! (b, out_key)
          = Some {| obj_body := body;
                    obj_content_length := Some (Z.of_nat (length body));
                    obj_content_type := "application/json" |}
       /\ (forall t t',
             process_one input_prefix output_prefix bucket key etag t
             = (Some Processed, t') ->
             s3_objects t !! (b, k) = Some obj ->
             s3_objects t' !! (b, out_key) = s3_objects s' !! (b, out_key)).
Proof.
  intros H.
  apply process_one_Processed_inv in H
    as (b & k & obj & width & height & fmt & exif_data
        & -> & -> & _ & _ & Hobj & Hdec & Hcalls & Hobjs).
  exists b, k, obj, width, height, fmt, exif_data,
    (json_dumps_at 2 1 etag), (json_dumps_at 2 1 (JObj exif_data)).
  split; [reflexivity|]. split; [reflexivity|]. split; [exact Hobj|].
  split; [exact Hdec|].
  split; [apply json_dumps_canonical|]. split; [apply json_dumps_canonical|].
  cbv zeta. rewrite <- metadata_record_text.
  split; [apply json_dumps_canonical|]. split; [reflexivity|].
  split; [|split].
  - rewrite Hcalls.
    change [CallHead ?a ?b; CallGet ?c ?d; ?e] with ([CallHead a b; CallGet c d] ++ [e])%list.
    rewrite app_assoc. apply last_snoc.
  - rewrite Hobjs. apply lookup_insert_eq.
  - intros t t' Ht Hobj'.
    apply process_one_Processed_inv in Ht
      as (b' & k' & obj' & width' & height' & fmt' & exif_data'
          & Hb & Hk & _ & _ & Hobj'' & Hdec' & _ & Hobjs').
    injection Hb as <-. injection Hk as <-.
    rewrite Hobj' in Hobj''. injection Hobj'' as <-.
    rewrite Hdec in Hdec'. injection Hdec' as <- <- <- <-.
    rewrite Hobjs, Hobjs', !lookup_insert_eq. reflexivity.
Qed.

(** C10: in a run that ends in [Processed], the record is written to the
    bucket of the work item under the mapped output key; the item's bucket is
    the only one any call of the run names; and no object under another
    bucket or key changes. *)
Theorem record_written_to_source_bucket input_prefix output_prefix bucket key etag s s' :
  process_one input_prefix output_prefix bucket key etag s = (Some Processed, s') ->
  exists b k body,
    bucket = JStr b /\ key = JStr k
    /\ let out_key := _build_metadata_key k input_prefix output_prefix in
       s3_calls s' = (s3_calls s ++ [CallHead (JStr b) out_key;
                                     CallGet (JStr b) k;
                                     CallPut (JStr b) out_key body "application/json"])%list
       /\ s3_objects s' !! (b, out_key) = Some (written_object body "application/json")
       /\ (forall b' k', (b', k') <> (b, out_key) ->
              s3_objects s' !! (b', k') = s3_objects s !! (b', k')).
Proof.
  intros H.
  apply process_one_Processed_inv in H
    as (b & k & obj & width & height & fmt & exif_data
        & -> & -> & _ & _ & _ & _ & Hcalls & Hobjs).
  eexists b, k, _. repeat split; eauto.
  - rewrite Hobjs. apply lookup_insert_eq.
  - intros b' k' Hne. rewrite Hobjs. apply lookup_insert_ne. congruence.
Qed.

(** ** The tag normalizer *)


Lemma dict_get_set (d : PyDict) k x :
  dict_get (dict_set d k x) k = Some x.
Proof.
  induction d as [|[k' v'] d IH]; simpl.
  - rewrite String.eqb_refl. reflexivity.
  - destruct (String.eqb k' k) eqn:Hk; simpl.
    + rewrite String.eqb_refl. reflexivity.
    + rewrite Hk. exact IH.
Qed.











(** ** The batch *)

Lemma run_records_count input_prefix output_prefix records p k e s p' k' e' s' :
  run_records input_prefix output_prefix records p k e s = (Some (p', k', e'), s') ->
  p' + k' + e' = p + k + e + length records /\ p <= p' /\ k <= k' /\ e <= e'.
Proof.
  revert p k e s. induction records as [|record rest IH]; simpl; intros p k e s H.
  - injection H as <- <- <- _. lia.
  - destruct (process_record input_prefix output_prefix record s) as [[[]|] s1];
      [apply IH in H .. | discriminate]; lia.
Qed.

(** C9: when the handler returns, its three counters add up to the number of
    records of the event and the status code is 200. *)
Theorem summary_counts_every_record environ event s r s' :
  metadata_handler environ event s = (Some r, s') ->
  processed r + skipped r + errors r = length (default [] (Records event))
  /\ statusCode r = 200.
Proof.
  unfold metadata_handler. intros H.
  destruct (run_records _ _ _ 0 0 0 s) as [[[[p k] e]|] s1] eqn:Hrun; [|discriminate].
  injection H as <- _. simpl.
  apply run_records_count in Hrun. lia.
Qed.

Lemma malformed_envelope_parse record :
  malformed_envelope record -> parse_envelope record = None.
Proof.
  intros [fields text Hbody Hloads | fields text body Hbody Hloads Hmissing];
    unfold parse_envelope; rewrite Hbody, Hloads; [reflexivity|].
  destruct Hmissing as [-> | ->]; [reflexivity|].
  destruct (dict_get body "bucket"); reflexivity.
Qed.

(** C8: a batch of one malformed envelope and one processable record gives
    one error and one processed, in either order and with the same store at
    the end; the malformed envelope is counted as an error without any call
    to the store. *)
Theorem batch_isolation environ bad good s s' :
  malformed_envelope bad ->
  processable environ good s s' ->
  (forall input_prefix output_prefix s0,
     process_record input_prefix output_prefix bad s0 = (Some Errored, s0))
  /\ metadata_handler environ {| Records := Some [bad; good] |} s
     = (Some {| statusCode := 200; processed := 1; skipped := 0; errors := 1 |}, s')
  /\ metadata_handler environ {| Records := Some [good; bad] |} s
     = (Some {| statusCode := 200; processed := 1; skipped := 0; errors := 1 |}, s').
Proof.
  intros Hbad (bucket & key & etag & Hgood & Hrun).
  apply malformed_envelope_parse in Hbad.
  unfold metadata_handler, process_record; simpl.
  unfold process_record. rewrite Hbad, Hgood, Hrun. auto.
Qed.

End Properties.

(** ** Exceptions that leave the handler *)

(** C2: an existence check that raises an exception other than a
    [ClientError] (here for the item of bucket [b] and key
    [incoming/photos/a.jpg]) is not counted as [Errored]: the exception
    leaves the loop body after the one call made. *)
Theorem existence_check_exception_escapes :
  let run :=
    process_one (L := Sample.libs) "incoming/" "metadata/"
      (JStr "b") (JStr "incoming/photos/a.jpg") (JStr "e1")
      (Sample.store_with [Some OtherException]) in
  fst run = None
  /\ fst run <> Some Errored
  /\ s3_calls (snd run) = [CallHead (JStr "b") "metadata/photos/a.jpg.json"].
Proof. vm_compute. repeat split; discriminate. Qed.

(** C3: the handler raises instead of returning a summary when the
    existence check of a record raises an exception other than a
    [ClientError], and when the [key] of an envelope is not a [str]; the
    records that follow are not attempted. *)
Theorem handler_raises :
  fst (metadata_handler (L := Sample.libs) Sample.no_environ
         {| Records := Some [Sample.record_of Sample.good_text] |}
         (Sample.store_with [Some OtherException])) = None
  /\ metadata_handler (L := Sample.libs) Sample.no_environ
       {| Records := Some [Sample.record_of Sample.number_key_text;
                           Sample.record_of Sample.good_text] |}
       Sample.store
     = (None, Sample.store).
Proof. split; vm_compute; reflexivity. Qed.

(** ** The scenarios of the design document *)

Example extension_filter_cases :
  _is_allowed_image_key "A.JPG" = true
  /\ _is_allowed_image_key "a.jpg" = true
  /\ _is_allowed_image_key "photo.Jpeg" = true
  /\ _is_allowed_image_key "a.gif" = false
  /\ _is_allowed_image_key "jpg" = false.
Proof. repeat split. Qed.

(** Scenario A: nothing under the output key, a 10 x 20 JPEG without tags. *)
Example scenario_A_processed :
  fst Sample.scenario_A = Some Processed
  /\ decode_step (L := Sample.libs) Sample.jpeg_bytes = Some (10%Z, 20%Z, "JPEG", [])
  /\ s3_calls Sample.processed_store
     = [CallHead (JStr "b") "metadata/photos/a.jpg.json";
        CallGet (JStr "b") "incoming/photos/a.jpg";
        CallPut (JStr "b") "metadata/photos/a.jpg.json"
          (encode_utf8
             (record_layout (L := Sample.libs) (JStr "b") "incoming/photos/a.jpg"
                (JStr "e1") "JPEG" 10 20 1000 []))
          "application/json"].
Proof. vm_compute. repeat split. Qed.

(** Scenario B: the output key is already there. *)
Example scenario_B_skipped :
  let run :=
    process_one (L := Sample.libs) "incoming/" "metadata/"
      (JStr "b") (JStr "incoming/photos/a.jpg") (JStr "e1") Sample.processed_store in
  fst run = Some Skipped
  /\ s3_calls (snd run)
     = (s3_calls Sample.processed_store
        ++ [CallHead (JStr "b") "metadata/photos/a.jpg.json"])%list.
Proof. vm_compute. repeat split. Qed.

(** Scenario C: an envelope without [key]. *)
Example scenario_C_error :
  metadata_handler (L := Sample.libs) Sample.no_environ
    {| Records := Some [Sample.record_of Sample.missing_key_text] |} Sample.store
  = (Some {| statusCode := 200; processed := 0; skipped := 0; errors := 1 |},
     Sample.store).
Proof. vm_compute. reflexivity. Qed.

(** A body that is not JSON is counted like the envelope of scenario C. *)
Example unparsable_body_error :
  metadata_handler (L := Sample.libs) Sample.no_environ
    {| Records := Some [Sample.record_of Sample.not_json_text] |} Sample.store
  = (Some {| statusCode := 200; processed := 0; skipped := 0; errors := 1 |},
     Sample.store).
Proof. vm_compute. reflexivity. Qed.

(** Scenario D: a key with an extension that is not allowed. *)
Example scenario_D_skipped :
  metadata_handler (L := Sample.libs) Sample.no_environ
    {| Records := Some [Sample.record_of Sample.pdf_text] |} Sample.store
  = (Some {| statusCode := 200; processed := 0; skipped := 1; errors := 0 |},
     Sample.store).
Proof. vm_compute. reflexivity. Qed.

(** Scenario E: the existence check is denied. *)
Example scenario_E_errored :
  let run :=
    process_one (L := Sample.libs) "incoming/" "metadata/"
      (JStr "b") (JStr "incoming/photos/a.jpg") (JStr "e1")
      (Sample.store_with [Some (ClientError "AccessDenied")]) in
  fst run = Some Errored
  /\ s3_calls (snd run) = [CallHead (JStr "b") "metadata/photos/a.jpg.json"].
Proof. vm_compute. repeat split. Qed.

(** ** The theorems at the sample inputs *)

Lemma process_one_idempotent_witness :
  Sample.scenario_A = (Some Processed, Sample.processed_store)
  /\ answered_from_store Sample.processed_store
  /\ exists s2,
       process_one (L := Sample.libs) "incoming/" "metadata/"
         (JStr "b") (JStr "incoming/photos/a.jpg") (JStr "e1") Sample.processed_store
       = (Some Skipped, s2)
       /\ s3_objects s2 = s3_objects Sample.processed_store.
Proof.
  assert (H1 : Sample.scenario_A = (Some Processed, Sample.processed_store))
    by (vm_compute; reflexivity).
  assert (H2 : answered_from_store Sample.processed_store) by reflexivity.
  split; [exact H1|]. split; [exact H2|].
  destruct (process_one_idempotent (L := Sample.libs) _ _ _ _ _ _ _ H1 H2)
    as (b & k & s2 & Hb & Hk & Hrun & _ & _ & Hobjs & _).
  exists s2. split; assumption.
Defined.

Lemma build_metadata_key_spec_witness :
  _build_metadata_key "incoming/photos/a.jpg" "incoming/" "metadata/"
  = "metadata/photos/a.jpg.json"
  /\ _build_metadata_key "other/a.jpg" "incoming/" "metadata/"
     = "metadata/other/a.jpg.json".
Proof.
  split.
  - destruct (build_metadata_key_spec "incoming/photos/a.jpg" "incoming/" "metadata/")
      as (Hstripped & _ & _).
    destruct (Hstripped eq_refl) as [-> _]. reflexivity.
  - destruct (build_metadata_key_spec "other/a.jpg" "incoming/" "metadata/")
      as (_ & Hkept & _).
    rewrite (Hkept eq_refl). reflexivity.
Defined.

Lemma file_size_is_fetched_size_witness :
  Sample.scenario_A = (Some Processed, Sample.processed_store)
  /\ length (obj_body Sample.source_object) = 4
  /\ exists img_bytes content_len s1 s2,
       fetch_step (L := Sample.libs) (JStr "b") "incoming/photos/a.jpg" s1
       = (Some (img_bytes, content_len), s2)
       /\ content_len = 1000%Z.
Proof.
  assert (H1 : Sample.scenario_A = (Some Processed, Sample.processed_store))
    by (vm_compute; reflexivity).
  split; [exact H1|]. split; [reflexivity|].
  destruct (file_size_is_fetched_size (L := Sample.libs) _ _ _ _ _ _ _ H1)
    as (b & k & s1 & s2 & img_bytes & content_len & width & height & fmt & exif_data
        & Hb & Hk & Hfetch & Hlen & _).
  injection Hb as <-. injection Hk as <-.
  exists img_bytes, content_len, s1, s2. split; [exact Hfetch|].
  apply (Hlen Sample.source_object); reflexivity.
Defined.


Lemma persisted_record_canonical_witness :
  Sample.scenario_A = (Some Processed, Sample.processed_store)
  /\ exists text,
       s3_objects Sample.processed_store !! ("b", "metadata/photos/a.jpg.json")
       = Some (written_object (String.list_byte_of_string text) "application/json")
       /\ last (s3_calls Sample.processed_store)
          = Some (CallPut (JStr "b") "metadata/photos/a.jpg.json"
                    (String.list_byte_of_string text) "application/json").
Proof.
  assert (H1 : Sample.scenario_A = (Some Processed, Sample.processed_store))
    by (vm_compute; reflexivity).
  split; [exact H1|].
  destruct (persisted_record_canonical (L := Sample.libs) _ _ _ _ _ _ _ H1)
    as (b & k & obj & width & height & fmt & exif_data & etag_text & exif_text
        & Hb & Hk & _ & _ & _ & _ & _ & _ & Hlast & Hobj & _).
  injection Hb as <-. injection Hk as <-.
  eexists. split; [exact Hobj | exact Hlast].
Defined.

Lemma batch_isolation_witness :
  malformed_envelope (L := Sample.libs) (Sample.record_of Sample.missing_key_text)
  /\ processable (L := Sample.libs) Sample.no_environ
       (Sample.record_of Sample.good_text) Sample.store Sample.processed_store
  /\ fst (metadata_handler (L := Sample.libs) Sample.no_environ
            {| Records := Some [Sample.record_of Sample.missing_key_text;
                                Sample.record_of Sample.good_text] |} Sample.store)
     = fst (metadata_handler (L := Sample.libs) Sample.no_environ
              {| Records := Some [Sample.record_of Sample.good_text;
                                  Sample.record_of Sample.missing_key_text] |}
              Sample.store).
Proof.
  assert (H1 : malformed_envelope (L := Sample.libs)
                 (Sample.record_of Sample.missing_key_text)).
  { eapply missing_required_field; [reflexivity | vm_compute; reflexivity |].
    right. reflexivity. }
  assert (H2 : processable (L := Sample.libs) Sample.no_environ
                 (Sample.record_of Sample.good_text) Sample.store
                 Sample.processed_store).
  { exists (JStr "b"), (JStr "incoming/photos/a.jpg"), (JStr "e1").
    split; vm_compute; reflexivity. }
  split; [exact H1|]. split; [exact H2|].
  destruct (batch_isolation (L := Sample.libs) _ _ _ _ _ H1 H2) as (_ & -> & ->).
  reflexivity.
Defined.

Lemma summary_counts_every_record_witness :
  Sample.batch_result
  = (Some {| statusCode := 200; processed := 1; skipped := 2; errors := 1 |},
     snd Sample.batch_result)
  /\ 1 + 2 + 1 = length (default [] (Records Sample.batch_event)).
Proof.
  assert (H1 : Sample.batch_result
               = (Some {| statusCode := 200; processed := 1; skipped := 2; errors := 1 |},
                  snd Sample.batch_result))
    by (vm_compute; reflexivity).
  split; [exact H1|].
  apply (summary_counts_every_record (L := Sample.libs) _ _ _ _ _ H1).
Defined.

Lemma record_written_to_source_bucket_witness :
  Sample.scenario_A = (Some Processed, Sample.processed_store)
  /\ exists body,
       s3_calls Sample.processed_store
       = [CallHead (JStr "b") "metadata/photos/a.jpg.json";
          CallGet (JStr "b") "incoming/photos/a.jpg";
          CallPut (JStr "b") "metadata/photos/a.jpg.json" body "application/json"]
       /\ s3_objects Sample.processed_store !! ("b", "incoming/photos/a.jpg")
          = Some Sample.source_object.
Proof.
  assert (H1 : Sample.scenario_A = (Some Processed, Sample.processed_store))
    by (vm_compute; reflexivity).
  split; [exact H1|].
  destruct (record_written_to_source_bucket (L := Sample.libs) _ _ _ _ _ _ _ H1)
    as (b & k & body & Hb & Hk & Hcalls & _ & Hother).
  injection Hb as <-. injection Hk as <-.
  exists body. split; [exact Hcalls|].
  rewrite Hother; [reflexivity | discriminate].
Defined.

(** * The ingestion stage *)

Section IngestProperties.

Context `{L : Libs} `{U : UrlLib}.


(** Without a usable [QUEUE_URL] the handler raises before it looks at the
    event: nothing is sent. *)
Theorem ingest_requires_queue_url environ event q :
  environ !! "QUEUE_URL" = None \/ environ !! "QUEUE_URL" = Some EmptyString ->
  Ingest.ingest_handler environ event q = (None, q).
Proof.
  unfold Ingest.ingest_handler, _env. intros [-> | ->]; reflexivity.
Qed.

(** The loop sends, in record order, the messages of the records it accepts,
    up to the point where it raises. *)
Lemma ingest_run_records_spec queue_url input_prefix records n k q r q' :
  Ingest.run_records queue_url input_prefix records n k q = (r, q') ->
  exists j,
    sqs_sent q'
    = (sqs_sent q
       ++ map (pair queue_url) (take j (omap (Ingest.message_of input_prefix) records)))%list
    /\ match r with
       | Some (n', k') =>
           j = length (omap (Ingest.message_of input_prefix) records)
           /\ n' = n + j
           /\ n' + k' = n + k + length records
       | None => True
       end.
Proof.
  unfold Ingest.message_of, Ingest.accepted.
  revert n k q. induction records as [|record rest IH]; intros n k q H.
  - injection H as <- <-. exists 0. simpl. rewrite app_nil_r. repeat split; lia.
  - cbn [Ingest.run_records] in H. cbn [omap list_omap].
    assert (Hstop : (None, q) = (r, q') ->
              exists j,
                sqs_sent q' = (sqs_sent q ++ map (pair queue_url) (take j
                  (omap (fun record =>
                     match Ingest.parse_notification record with
                     | Some (bucket, key, etag) =>
                         if Str.startswith key input_prefix && _is_allowed_image_key key
                         then Some (Ingest.json_dumps (Ingest.message_body bucket key etag))
                         else None
                     | None => None
                     end) rest)))%list
                /\ match r with
                   | Some (n', k') =>
                       j = length (omap (fun record =>
                         match Ingest.parse_notification record with
                         | Some (bucket, key, etag) =>
                             if Str.startswith key input_prefix && _is_allowed_image_key key
                             then Some (Ingest.json_dumps (Ingest.message_body bucket key etag))
                             else None
                         | None => None
                         end) rest)
                       /\ n' = n + j /\ n' + k' = n + k + length (record :: rest)
                   | None => True
                   end).
    { intros [= <- <-]. exists 0. cbn [take map]. rewrite app_nil_r. auto. }
    assert (Hskip : Ingest.run_records queue_url input_prefix rest n (S k) q = (r, q') ->
              exists j,
                sqs_sent q' = (sqs_sent q ++ map (pair queue_url) (take j
                  (omap (fun record =>
                     match Ingest.parse_notification record with
                     | Some (bucket, key, etag) =>
                         if Str.startswith key input_prefix && _is_allowed_image_key key
                         then Some (Ingest.json_dumps (Ingest.message_body bucket key etag))
                         else None
                     | None => None
                     end) rest)))%list
                /\ match r with
                   | Some (n', k') =>
                       j = length (omap (fun record =>
                         match Ingest.parse_notification record with
                         | Some (bucket, key, etag) =>
                             if Str.startswith key input_prefix && _is_allowed_image_key key
                             then Some (Ingest.json_dumps (Ingest.message_body bucket key etag))
                             else None
                         | None => None
                         end) rest)
                       /\ n' = n + j /\ n' + k' = n + k + length (record :: rest)
                   | None => True
                   end).
    { intros Hrest. apply IH in Hrest as (j & Hsent & Hr). exists j. split; [exact Hsent|].
      destruct r as [[n' k']|]; cbn [length]; [lia | exact I]. }
    destruct (Ingest.parse_notification record) as [[[bucket key] etag]|]; [|auto].
    destruct (Str.startswith key input_prefix); cbn [negb andb] in *.
    2: { destruct (printable key); cbn [negb] in H; auto. }
    destruct (_is_allowed_image_key key); cbn [negb] in *.
    2: { destruct (printable key); cbn [negb] in H; auto. }
    unfold send_message in H.
    destruct (sqs_faults q) as [|[|] faults].
    + apply IH in H as (j & Hsent & Hr). exists (S j). cbn [length take map sqs_sent] in *.
      rewrite Hsent, <- app_assoc. split; [reflexivity|].
      destruct r as [[n' k']|]; [lia | exact I].
    + injection H as <- <-. exists 0. cbn [length take map sqs_sent].
      rewrite app_nil_r. split; [reflexivity | exact I].
    + apply IH in H as (j & Hsent & Hr). exists (S j). cbn [length take map sqs_sent] in *.
      rewrite Hsent, <- app_assoc. split; [reflexivity|].
      destruct r as [[n' k']|]; [lia | exact I].
Qed.

(** When the handler returns, every record was counted once, as sent or as
    skipped, the status code is 200, and the queue holds one more message
    for each record counted as sent. *)
Theorem ingest_counts_every_record environ event q r q' :
  Ingest.ingest_handler environ event q = (Some r, q') ->
  Ingest.sent r + Ingest.skipped r = length (default [] (Records event))
  /\ Ingest.statusCode r = 200
  /\ length (sqs_sent q') = length (sqs_sent q) + Ingest.sent r.
Proof.
  unfold Ingest.ingest_handler. intros H.
  destruct (_env environ "QUEUE_URL" None) as [queue_url|]; [|discriminate].
  destruct (Ingest.run_records _ _ _ 0 0 q) as [[[n k]|] q1] eqn:Hrun; [|discriminate].
  injection H as <- <-. cbn [Ingest.sent Ingest.skipped Ingest.statusCode].
  apply ingest_run_records_spec in Hrun as (j & Hsent & -> & -> & Hsum).
  rewrite Hsent, length_app, length_map, firstn_all. repeat split; lia.
Qed.


(** The loop when the send of the message number [j] (from 0) is the first
    scheduled to raise. *)
Lemma ingest_run_records_failing queue_url input_prefix rest_faults records :
  forall j n k q,
    sqs_faults q = (replicate j false ++ true :: rest_faults)%list ->
    j < length (omap (Ingest.message_of input_prefix) records) ->
    Forall (Ingest.skip_printable input_prefix) records ->
    exists q',
      Ingest.run_records queue_url input_prefix records n k q = (None, q')
      /\ sqs_sent q'
         = (sqs_sent q
            ++ map (pair queue_url)
                 (take j (omap (Ingest.message_of input_prefix) records)))%list.
Proof.
  induction records as [|record rest IH]; intros j n k q Hfaults Hj Hprint.
  - cbn [omap list_omap length] in Hj. lia.
  - apply Forall_cons in Hprint as [Hrecord Hrest].
    cbn [Ingest.run_records]. cbn [omap list_omap] in Hj |- *.
    unfold Ingest.skip_printable in Hrecord.
    unfold Ingest.message_of at 1 3 in Hj. unfold Ingest.message_of at 1 3.
    unfold Ingest.accepted in *.
    destruct (Ingest.parse_notification record) as [[[bucket key] etag]|];
      [|apply IH; assumption].
    destruct (Str.startswith key input_prefix); cbn [negb andb] in *.
    2: { destruct Hrecord as [[=] | ->]. cbn [negb]. apply IH; assumption. }
    destruct (_is_allowed_image_key key); cbn [negb] in *.
    2: { destruct Hrecord as [[=] | ->]. cbn [negb]. apply IH; assumption. }
    unfold send_message. rewrite Hfaults.
    destruct j as [|j]; cbn [replicate app].
    + eexists. split; [reflexivity|]. cbn [take map sqs_sent]. rewrite app_nil_r.
      reflexivity.
    + cbn [length] in Hj.
      match goal with |- context [Ingest.run_records _ _ _ _ _ ?q1] =>
        destruct (IH j (S n) k q1) as (q' & Hrun & Hsent) end;
        [reflexivity | lia | exact Hrest |].
      exists q'. split; [exact Hrun|].
      rewrite Hsent. cbn [sqs_sent take map]. rewrite <- app_assoc. reflexivity.
Qed.

(** [send_message] is outside every [try]: when the send of the message
    number [j] of the batch is the first to raise, the handler raises, and
    the [j] messages before it, and no other, have been added to the queue. *)
Theorem ingest_send_failure_aborts environ event records q queue_url j rest_faults :
  _env environ "QUEUE_URL" None = Some queue_url ->
  event_records event = Some records ->
  sqs_faults q = (replicate j false ++ true :: rest_faults)%list ->
  j < length (omap (Ingest.message_of (environ_get environ "INPUT_PREFIX" "incoming/"))
                   records) ->
  Forall (Ingest.skip_printable (environ_get environ "INPUT_PREFIX" "incoming/")) records ->
  exists q',
    Ingest.ingest_handler_event environ event q = (None, q')
    /\ sqs_sent q'
       = (sqs_sent q
          ++ map (pair queue_url)
               (take j
                  (omap (Ingest.message_of (environ_get environ "INPUT_PREFIX" "incoming/"))
                        records)))%list.
Proof.
  unfold Ingest.ingest_handler_event, Ingest.ingest_handler.
  intros -> -> Hfaults Hj Hprint.
  change (default [] (Records {| Records := Some records |})) with records.
  destruct (ingest_run_records_failing queue_url _ _ _ j 0 0 q Hfaults Hj Hprint)
    as (q' & -> & Hsent).
  eauto.
Qed.



(** A number under ["Records"] makes both handlers raise, before anything is
    sent or requested. *)
Lemma handlers_raise_on_number_records environ n q s :
  n <> 0%Z ->
  Ingest.ingest_handler_event environ [("Records", JNum n)] q = (None, q)
  /\ metadata_handler_event environ [("Records", JNum n)] s = (None, s).
Proof.
  intros Hn. unfold Ingest.ingest_handler_event, metadata_handler_event, event_records.
  cbn [dict_get String.eqb Ascii.eqb Bool.eqb py_truthy].
  change (String.eqb "Records" "Records") with true. cbv iota.
  destruct (Z.eqb_spec n 0) as [->|_]; [contradiction|]. cbn [negb py_iter]. auto.
Qed.

(** A message of the ingestion stage that [json.loads] reads back is never
    counted as a malformed envelope or skipped by the validation of the
    processing stage run with the same input prefix: when its output key can
    be printed, the worker goes on to the existence check of that key. *)
Theorem ingested_message_reaches_existence_check
    input_prefix output_prefix record bucket key etag fields s :
  Ingest.parse_notification record = Some (bucket, key, etag) ->
  Ingest.accepted input_prefix key = true ->
  printable (_build_metadata_key key input_prefix output_prefix) = true ->
  dict_get fields "body"
  = Some (JStr (Ingest.json_dumps (Ingest.message_body bucket key etag))) ->
  json_loads (Ingest.json_dumps (Ingest.message_body bucket key etag))
  = Some (Ingest.message_body bucket key etag) ->
  Ingest.message_of input_prefix record
  = Some (Ingest.json_dumps (Ingest.message_body bucket key etag))
  /\ parse_envelope (JObj fields) = Some (bucket, JStr key, etag)
  /\ exists rest,
       s3_calls (snd (process_record input_prefix output_prefix (JObj fields) s))
       = (s3_calls s
          ++ CallHead bucket (_build_metadata_key key input_prefix output_prefix)
             :: rest)%list.
Proof.
  intros Hparse Haccepted Hprint Hbody Hloads.
  assert (Henvelope : parse_envelope (JObj fields) = Some (bucket, JStr key, etag)).
  { unfold parse_envelope. rewrite Hbody. unfold default at 1. cbn [from_option id].
    rewrite Hloads. reflexivity. }
  split; [unfold Ingest.message_of; rewrite Hparse, Haccepted; reflexivity|].
  split; [exact Henvelope|].
  unfold process_record. rewrite Henvelope.
  apply andb_true_iff in Haccepted as [Hpre Hext].
  destruct (head_object bucket (_build_metadata_key key input_prefix output_prefix) s)
    as [r s1] eqn:Hhead.
  rewrite (existence_check_decides _ _ _ _ _ _ _ _ Hpre Hext Hprint Hhead).
  apply head_object_inv in Hhead as (_ & Hcalls1 & _).
  destruct r as [u|[code|]]; cbn [snd]; [exists []; exact Hcalls1| |exists []; exact Hcalls1].
  destruct (Str.mem code _); cbn [snd]; [|exists []; exact Hcalls1].
  unfold fetch_decode_write, fetch_step.
  destruct (get_object bucket key s1) as [[obj|e] s2] eqn:Hget;
    apply get_object_inv in Hget as (_ & Hcalls2 & _); cbn [snd].
  2: { eexists. rewrite Hcalls2, Hcalls1, <- app_assoc. reflexivity. }
  destruct (decode_step (obj_body obj)) as [[[[width height] fmt] exif_data]|]; cbn [snd].
  2: { eexists. rewrite Hcalls2, Hcalls1, <- app_assoc. reflexivity. }
  match goal with |- context [put_object ?b ?k ?body ?ct ?s] =>
    destruct (put_object b k body ct s) as [[u|e] s3] eqn:Hput end;
    apply put_object_inv in Hput as (Hcalls3 & _); cbn [snd];
    eexists; rewrite Hcalls3, Hcalls2, Hcalls1, <- !app_assoc; reflexivity.
Qed.

End IngestProperties.

(** * More on the processing stage *)

(** ** Keys *)

Lemma lower_upper_char c : Str.lower_char (Str.upper_char c) = Str.lower_char c.
Proof. destruct c as [[] [] [] [] [] [] [] []]; reflexivity. Qed.

Lemma lower_lower_char c : Str.lower_char (Str.lower_char c) = Str.lower_char c.
Proof. destruct c as [[] [] [] [] [] [] [] []]; reflexivity. Qed.

Lemma lower_upper key : Str.lower (Str.upper key) = Str.lower key.
Proof.
  unfold Str.lower, Str.upper.
  induction key as [|c key IH]; cbn [Str.map_chars]; [reflexivity|].
  rewrite lower_upper_char. f_equal. exact IH.
Qed.

Lemma lower_lower key : Str.lower (Str.lower key) = Str.lower key.
Proof.
  unfold Str.lower.
  induction key as [|c key IH]; cbn [Str.map_chars]; [reflexivity|].
  rewrite lower_lower_char. f_equal. exact IH.
Qed.

(** The extension filter does not look at the case of the key. *)
Theorem allowed_image_key_ignores_case key :
  _is_allowed_image_key (Str.upper key) = _is_allowed_image_key key
  /\ _is_allowed_image_key (Str.lower key) = _is_allowed_image_key key.
Proof.
  unfold _is_allowed_image_key. rewrite lower_upper, lower_lower. split; reflexivity.
Qed.

Lemma str_app_cons x (a b : string) : String x a +:+ b = String x (a +:+ b).
Proof. reflexivity. Qed.

Lemma str_app_assoc (a b c : string) : (a +:+ b) +:+ c = a +:+ (b +:+ c).
Proof.
  induction a as [|x a IH]; [reflexivity|].
  rewrite ?str_app_cons; cbn [String.length]; f_equal; exact IH.
Qed.

Lemma str_app_empty_r (a : string) : a +:+ EmptyString = a.
Proof.
  induction a as [|x a IH]; [reflexivity|].
  rewrite ?str_app_cons; cbn [String.length]; f_equal; exact IH.
Qed.

Lemma str_length_app (a b : string) :
  String.length (a +:+ b) = String.length a + String.length b.
Proof.
  induction a as [|x a IH]; [reflexivity|].
  rewrite str_app_cons. cbn [String.length]. rewrite IH. reflexivity.
Qed.

Lemma rev_app_acc (s acc : string) : String.rev_app s acc = String.rev s +:+ acc.
Proof.
  unfold String.rev. revert acc.
  induction s as [|c s IH]; intros acc; cbn [String.rev_app]; [reflexivity|].
  rewrite IH, (IH (String c EmptyString)), str_app_assoc. reflexivity.
Qed.

Lemma rev_app_distr (a b : string) : String.rev (a +:+ b) = String.rev b +:+ String.rev a.
Proof.
  induction a as [|c a IH].
  - change (EmptyString +:+ b) with b. change (String.rev EmptyString) with EmptyString.
    rewrite str_app_empty_r. reflexivity.
  - rewrite str_app_cons. unfold String.rev at 1 3. cbn [String.rev_app].
    rewrite rev_app_acc, (rev_app_acc a), IH, str_app_assoc. reflexivity.
Qed.

Lemma lower_app (a b : string) : Str.lower (a +:+ b) = Str.lower a +:+ Str.lower b.
Proof.
  unfold Str.lower.
  induction a as [|c a IH]; [reflexivity|].
  rewrite str_app_cons. cbn [Str.map_chars]. rewrite str_app_cons. f_equal. exact IH.
Qed.

Lemma build_metadata_key_not_allowed input_key input_prefix output_prefix :
  _is_allowed_image_key (_build_metadata_key input_key input_prefix output_prefix) = false.
Proof.
  unfold _build_metadata_key, _is_allowed_image_key, Str.endswith.
  rewrite <- str_app_assoc, lower_app, rev_app_distr. reflexivity.
Qed.

(** The output key is never a key the extension filter lets through: the
    record written for an image is not itself taken for an image. *)
Theorem output_key_is_not_an_image_key input_key input_prefix output_prefix :
  _is_allowed_image_key (_build_metadata_key input_key input_prefix output_prefix) = false.
Proof. apply build_metadata_key_not_allowed. Qed.

Lemma startswith_split key prefix :
  Str.startswith key prefix = true ->
  key = prefix +:+ Str.drop (String.length prefix) key.
Proof.
  unfold Str.startswith. revert key.
  induction prefix as [|c p IH]; intros [|d k] H; simpl in *;
    try reflexivity; try discriminate.
  destruct (Ascii.ascii_dec c d) as [->|]; [|discriminate].
  change (String d p +:+ Str.drop (String.length p) k)
    with (String d (p +:+ Str.drop (String.length p) k)).
  f_equal. apply IH, H.
Qed.

Lemma str_app_inv_tail (a b t : string) : a +:+ t = b +:+ t -> a = b.
Proof.
  revert b. induction a as [|x a IH]; intros [|y b] H; rewrite ?str_app_cons in H.
  - reflexivity.
  - change (EmptyString +:+ t) with t in H.
    apply (f_equal String.length) in H. cbn [String.length] in H.
    rewrite str_length_app in H. lia.
  - change (EmptyString +:+ t) with t in H.
    apply (f_equal String.length) in H. cbn [String.length] in H.
    rewrite str_length_app in H. lia.
  - injection H as -> H. f_equal. apply IH, H.
Qed.

(** Two keys that carry the input prefix and are mapped to the same output
    key are the same key: two images never share a record. *)
Theorem build_metadata_key_injective key1 key2 input_prefix output_prefix :
  Str.startswith key1 input_prefix = true ->
  Str.startswith key2 input_prefix = true ->
  _build_metadata_key key1 input_prefix output_prefix
  = _build_metadata_key key2 input_prefix output_prefix ->
  key1 = key2.
Proof.
  intros H1 H2. unfold _build_metadata_key. rewrite H1, H2. intros Heq.
  rewrite (startswith_split _ _ H1), (startswith_split _ _ H2). f_equal.
  apply String.app_inj in Heq. apply str_app_inv_tail in Heq. exact Heq.
Qed.

(** ** What a turn of the loop does to the store *)

Lemma drop_drop_faults (s s1 s2 : S3) :
  (exists n, s3_faults s1 = drop n (s3_faults s)) ->
  (exists n, s3_faults s2 = drop n (s3_faults s1)) ->
  exists n, s3_faults s2 = drop n (s3_faults s).
Proof.
  intros [n ->] [m ->]. exists (n + m). apply drop_drop.
Qed.

Section StoreProperties.

Context `{L : Libs}.

Lemma s3_call_faults {A : Type} (call : S3Call) (bucket : Json)
    (serve : string -> gmap (string * string) S3Object ->
             Res A * gmap (string * string) S3Object) (s : S3) r s' :
  s3_call call bucket serve s = (r, s') ->
  exists n, s3_faults s' = drop n (s3_faults s).
Proof.
  unfold s3_call. intros H. cbv zeta in H.
  destruct bucket; try (injection H as <- <-; exists 0; apply eq_sym, drop_0).
  destruct (valid_bucket_name s0);
    [|injection H as <- <-; exists 0; apply eq_sym, drop_0].
  destruct (s3_faults s) as [|[e|] fs] eqn:Hf.
  - destruct (serve _ _). injection H as <- <-. exists 0. reflexivity.
  - injection H as <- <-. exists 1. reflexivity.
  - destruct (serve _ _). injection H as <- <-. exists 1. reflexivity.
Qed.

(** From [get_object] on: a fetch, then at most one write, which is the last
    call; the objects change only when the outcome is [Processed]. *)
Lemma fetch_decode_write_trace bucket key out_key etag s o s' :
  fetch_decode_write bucket key out_key etag s = (o, s') ->
  o <> None
  /\ (exists n, s3_faults s' = drop n (s3_faults s))
  /\ (o <> Some Processed -> s3_objects s' = s3_objects s)
  /\ (s3_calls s' = (s3_calls s ++ [CallGet bucket key])%list
      \/ exists body,
           s3_calls s' = (s3_calls s ++ [CallGet bucket key;
                                         CallPut bucket out_key body "application/json"])%list).
Proof.
  unfold fetch_decode_write, fetch_step. intros H.
  destruct (get_object bucket key s) as [r1 s1] eqn:Hget.
  pose proof (s3_call_faults _ _ _ _ _ _ Hget) as Hf1.
  apply get_object_inv in Hget as (Hobjs1 & Hcalls1 & _).
  destruct r1 as [obj|e].
  2: { injection H as <- <-. repeat split; auto; discriminate. }
  destruct (decode_step (obj_body obj)) as [[[[width height] fmt] exif_data]|].
  2: { injection H as <- <-. repeat split; auto; discriminate. }
  match type of H with context [put_object ?b ?k ?body ?ct ?s] =>
    destruct (put_object b k body ct s) as [r2 s2] eqn:Hput end.
  pose proof (s3_call_faults _ _ _ _ _ _ Hput) as Hf2.
  apply put_object_inv in Hput as (Hcalls2 & Hobjs2).
  assert (Hcalls : exists body,
            s3_calls s2 = (s3_calls s ++ [CallGet bucket key;
                                          CallPut bucket out_key body "application/json"])%list).
  { eexists. rewrite Hcalls2, Hcalls1, <- app_assoc. reflexivity. }
  destruct r2 as [u|e]; injection H as <- <-.
  - repeat split; eauto using drop_drop_faults; try discriminate. congruence.
  - repeat split; eauto using drop_drop_faults; try discriminate. congruence.
Qed.

(** One work item: the schedule only advances, the objects change only when
    the outcome is [Processed], and the calls made are a prefix of existence
    check, fetch, write. *)
Lemma process_one_effects input_prefix output_prefix bucket key etag s o s' :
  process_one input_prefix output_prefix bucket key etag s = (o, s') ->
  (exists n, s3_faults s' = drop n (s3_faults s))
  /\ (o <> Some Processed -> s3_objects s' = s3_objects s)
  /\ (s3_calls s' = s3_calls s
      \/ exists k,
           key = JStr k
           /\ let out_key := _build_metadata_key k input_prefix output_prefix in
              s3_calls s' = (s3_calls s ++ [CallHead bucket out_key])%list
              \/ s3_calls s' = (s3_calls s ++ [CallHead bucket out_key;
                                               CallGet bucket k])%list
              \/ exists body,
                   s3_calls s'
                   = (s3_calls s ++ [CallHead bucket out_key;
                                     CallGet bucket k;
                                     CallPut bucket out_key body "application/json"])%list).
Proof.
  unfold process_one. intros H.
  assert (Hnone : exists n, s3_faults s = drop n (s3_faults s)) by (exists 0; reflexivity).
  destruct key as [| | | |k| |]; try (injection H as <- <-; repeat split; auto; fail).
  destruct (negb (Str.startswith k input_prefix) || negb (_is_allowed_image_key k));
    [injection H as <- <-; repeat split; auto|].
  destruct (negb (printable (_build_metadata_key k input_prefix output_prefix)));
    [injection H as <- <-; repeat split; auto|].
  destruct (head_object bucket (_build_metadata_key k input_prefix output_prefix) s)
    as [r s1] eqn:Hhead.
  pose proof (s3_call_faults _ _ _ _ _ _ Hhead) as Hf1.
  apply head_object_inv in Hhead as (Hobjs1 & Hcalls1 & _).
  assert (Hhead_only :
            (exists n, s3_faults s1 = drop n (s3_faults s))
            /\ (o <> Some Processed -> s3_objects s1 = s3_objects s)
            /\ (s3_calls s1 = s3_calls s
                \/ exists k0,
                     JStr k = JStr k0
                     /\ let out_key := _build_metadata_key k0 input_prefix output_prefix in
                        s3_calls s1 = (s3_calls s ++ [CallHead bucket out_key])%list
                        \/ s3_calls s1 = (s3_calls s ++ [CallHead bucket out_key;
                                                         CallGet bucket k0])%list
                        \/ exists body,
                             s3_calls s1
                             = (s3_calls s ++ [CallHead bucket out_key;
                                               CallGet bucket k0;
                                               CallPut bucket out_key body
                                                 "application/json"])%list)).
  { split; [exact Hf1|]. split; [auto|].
    right. exists k. split; [reflexivity|]. left. exact Hcalls1. }
  destruct r as [u|[code|]]; try (injection H as <- <-; exact Hhead_only).
  destruct (negb (Str.mem code _)); [injection H as <- <-; exact Hhead_only|].
  apply fetch_decode_write_trace in H as (_ & Hf2 & Hobjs & Hcalls).
  split; [eauto using drop_drop_faults|].
  split; [intros Ho; rewrite (Hobjs Ho); exact Hobjs1|].
  right. exists k. split; [reflexivity|]. right.
  destruct Hcalls as [Hcalls | [body Hcalls]]; rewrite Hcalls1, <- app_assoc in Hcalls.
  - left. exact Hcalls.
  - right. exists body. exact Hcalls.
Qed.

(** One work item: the calls made are the existence check, then the fetch,
    then the write, each only after the one before, all on the bucket of the
    item, reading the source key and writing the output key; the objects
    change only when the outcome is [Processed]. *)
Theorem process_one_trace input_prefix output_prefix bucket key etag s o s' :
  process_one input_prefix output_prefix bucket key etag s = (o, s') ->
  (o <> Some Processed -> s3_objects s' = s3_objects s)
  /\ (s3_calls s' = s3_calls s
      \/ exists k,
           key = JStr k
           /\ let out_key := _build_metadata_key k input_prefix output_prefix in
              s3_calls s' = (s3_calls s ++ [CallHead bucket out_key])%list
              \/ s3_calls s' = (s3_calls s ++ [CallHead bucket out_key;
                                               CallGet bucket k])%list
              \/ exists body,
                   s3_calls s'
                   = (s3_calls s ++ [CallHead bucket out_key;
                                     CallGet bucket k;
                                     CallPut bucket out_key body "application/json"])%list).
Proof. intros H. apply process_one_effects in H as (_ & Hobjs & Hcalls). auto. Qed.

Lemma keeps_images_refl s : keeps_images s s.
Proof. split; auto. Qed.

Lemma keeps_images_trans s1 s2 s3 :
  keeps_images s1 s2 -> keeps_images s2 s3 -> keeps_images s1 s3.
Proof.
  intros [Hk1 Hd1] [Hk2 Hd2]. split.
  - intros b k Hk. rewrite (Hk2 b k Hk). auto.
  - auto.
Qed.

Lemma keeps_images_same_objects s s' : s3_objects s' = s3_objects s -> keeps_images s s'.
Proof. intros H. unfold keeps_images. rewrite H. auto. Qed.

Lemma process_one_keeps_images input_prefix output_prefix bucket key etag s o s' :
  process_one input_prefix output_prefix bucket key etag s = (o, s') ->
  keeps_images s s'.
Proof.
  intros H.
  assert (Hcases : o = Some Processed \/ o <> Some Processed)
    by (destruct o as [[]|]; auto; right; discriminate).
  destruct Hcases as [-> | Hne].
  - apply process_one_Processed_inv in H
      as (b & k & obj & width & height & fmt & exif_data
          & _ & _ & _ & _ & _ & _ & _ & Hobjs).
    cbv zeta in Hobjs. split.
    + intros b' k' Hk'. rewrite Hobjs. apply lookup_insert_ne.
      intros [= -> <-]. rewrite build_metadata_key_not_allowed in Hk'. discriminate.
    + intros bk Hbk. rewrite Hobjs.
      destruct (decide ((b, _build_metadata_key k input_prefix output_prefix) = bk))
        as [<- | Hother].
      * rewrite lookup_insert_eq. eauto.
      * rewrite lookup_insert_ne by exact Hother. exact Hbk.
  - apply process_one_effects in H as (_ & Hobjs & _).
    apply keeps_images_same_objects, Hobjs, Hne.
Qed.

Lemma process_record_keeps_images input_prefix output_prefix record s o s' :
  process_record input_prefix output_prefix record s = (o, s') ->
  keeps_images s s'.
Proof.
  unfold process_record.
  destruct (parse_envelope record) as [[[bucket key] etag]|].
  - apply process_one_keeps_images.
  - intros [= <- <-]. apply keeps_images_refl.
Qed.

Lemma run_records_keeps_images input_prefix output_prefix records p k e s r s' :
  run_records input_prefix output_prefix records p k e s = (r, s') ->
  keeps_images s s'.
Proof.
  revert p k e s. induction records as [|record rest IH]; intros p k e s H.
  - injection H as <- <-. apply keeps_images_refl.
  - cbn [run_records] in H.
    destruct (process_record input_prefix output_prefix record s) as [o s1] eqn:Hrec.
    apply process_record_keeps_images in Hrec.
    destruct o as [[]|]; try (apply IH in H; eauto using keeps_images_trans).
    injection H as <- <-. exact Hrec.
Qed.

(** Whatever the batch and however it ends, returning or raising, the
    handler leaves every object under an image key as it was and removes no
    object: source images are never overwritten. *)
Theorem handler_keeps_images environ event s r s' :
  metadata_handler environ event s = (r, s') ->
  (forall b k, _is_allowed_image_key k = true ->
               s3_objects s' !! (b, k) = s3_objects s !! (b, k))
  /\ (forall bk, is_Some (s3_objects s !! bk) -> is_Some (s3_objects s' !! bk)).
Proof.
  unfold metadata_handler. intros H.
  destruct (run_records _ _ _ 0 0 0 s) as [[[[p k] e]|] s1] eqn:Hrun;
    injection H as _ <-; exact (run_records_keeps_images _ _ _ _ _ _ _ _ _ Hrun).
Qed.

Lemma process_record_calls input_prefix output_prefix record s o s' :
  process_record input_prefix output_prefix record s = (o, s') ->
  exists new, s3_calls s' = (s3_calls s ++ new)%list /\ length new <= 3.
Proof.
  unfold process_record.
  destruct (parse_envelope record) as [[[bucket key] etag]|].
  - intros H. apply process_one_effects in H as (_ & _ & Hcalls).
    destruct Hcalls as [-> | (k & _ & [-> | [-> | [body ->]]])].
    + exists []. rewrite app_nil_r. split; [reflexivity | simpl; lia].
    + eexists. split; [reflexivity | simpl; lia].
    + eexists. split; [reflexivity | simpl; lia].
    + eexists. split; [reflexivity | simpl; lia].
  - intros [= <- <-]. exists []. rewrite app_nil_r. split; [reflexivity | simpl; lia].
Qed.

Lemma run_records_calls input_prefix output_prefix records p k e s r s' :
  run_records input_prefix output_prefix records p k e s = (r, s') ->
  exists new, s3_calls s' = (s3_calls s ++ new)%list /\ length new <= 3 * length records.
Proof.
  revert p k e s. induction records as [|record rest IH]; intros p k e s H.
  - injection H as <- <-. exists []. rewrite app_nil_r. split; [reflexivity | simpl; lia].
  - cbn [run_records] in H.
    destruct (process_record input_prefix output_prefix record s) as [o s1] eqn:Hrec.
    apply process_record_calls in Hrec as (new1 & Hcalls1 & Hlen1).
    destruct o as [[]|].
    1-3: apply IH in H as (new2 & Hcalls2 & Hlen2); exists (new1 ++ new2)%list;
         rewrite Hcalls2, Hcalls1, <- app_assoc, length_app; cbn [length];
         split; [reflexivity | lia].
    injection H as <- <-. exists new1. cbn [length]. split; [exact Hcalls1 | lia].
Qed.

(** The handler only adds to the log of calls, and at most three calls for
    each record of the event. *)
Theorem handler_call_budget environ event s r s' :
  metadata_handler environ event s = (r, s') ->
  exists new,
    s3_calls s' = (s3_calls s ++ new)%list
    /\ length new <= 3 * length (default [] (Records event)).
Proof.
  unfold metadata_handler. intros H.
  destruct (run_records _ _ _ 0 0 0 s) as [[[[p k] e]|] s1] eqn:Hrun;
    injection H as _ <-; exact (run_records_calls _ _ _ _ _ _ _ _ _ Hrun).
Qed.

(** ** When the handler returns *)

Lemma head_object_no_other_exception b key s r s1 :
  valid_bucket_name b = true ->
  no_other_exception s ->
  head_object (JStr b) key s = (r, s1) ->
  r <> Raise OtherException.
Proof.
  unfold no_other_exception, head_object, s3_call. intros -> Hs H.
  destruct (s3_faults s) as [|[e|] faults].
  - destruct (s3_objects s !! (b, key)); injection H as <- _; discriminate.
  - apply Forall_cons in Hs as [He _]. injection H as <- _. congruence.
  - destruct (s3_objects s !! (b, key)); injection H as <- _; discriminate.
Qed.

Lemma process_record_returns input_prefix output_prefix record s :
  no_other_exception s ->
  well_typed_envelope input_prefix output_prefix record ->
  exists o s',
    process_record input_prefix output_prefix record s = (Some o, s')
    /\ no_other_exception s'.
Proof.
  unfold well_typed_envelope, process_record. intros Hs Htyped.
  destruct (parse_envelope record) as [[[bucket key] etag]|]; [|eauto].
  destruct bucket as [| | | |b| |]; try contradiction.
  destruct key as [| | | |k| |]; try contradiction.
  destruct Htyped as [Hvalid Hprint].
  destruct (process_one input_prefix output_prefix (JStr b) (JStr k) etag s)
    as [o s'] eqn:Hrun.
  assert (Hs' : no_other_exception s').
  { destruct (process_one_effects _ _ _ _ _ _ _ _ Hrun) as ([n Hf] & _).
    unfold no_other_exception. rewrite Hf. apply Forall_drop, Hs. }
  destruct o as [o|]; [eauto|]. exfalso.
  unfold process_one in Hrun.
  destruct (negb (Str.startswith k input_prefix) || negb (_is_allowed_image_key k));
    [discriminate|].
  rewrite Hprint in Hrun. cbn [negb] in Hrun.
  destruct (head_object (JStr b) (_build_metadata_key k input_prefix output_prefix) s)
    as [r s1] eqn:Hhead.
  pose proof (head_object_no_other_exception _ _ _ _ _ Hvalid Hs Hhead) as Hr.
  destruct r as [u|[code|]]; try discriminate; [|congruence].
  destruct (negb (Str.mem code _)); [discriminate|].
  apply fetch_decode_write_trace in Hrun as (Hne & _). congruence.
Qed.

(** The loop over a list of records ends in a summary whenever no request
    is scheduled to raise an exception other than a [ClientError] and every
    envelope that parses has for bucket a [str] the client accepts and for
    key a [str] whose output key can be printed. *)
Lemma metadata_handler_returns environ event s :
  no_other_exception s ->
  Forall (well_typed_envelope (environ_get environ "INPUT_PREFIX" "incoming/")
            (environ_get environ "OUTPUT_PREFIX" "metadata/"))
         (default [] (Records event)) ->
  exists r s', metadata_handler environ event s = (Some r, s').
Proof.
  unfold metadata_handler. intros Hs Htyped.
  assert (Hrun : forall records p k e s0,
            no_other_exception s0 ->
            Forall (well_typed_envelope (environ_get environ "INPUT_PREFIX" "incoming/")
                      (environ_get environ "OUTPUT_PREFIX" "metadata/")) records ->
            exists c s1,
              run_records (environ_get environ "INPUT_PREFIX" "incoming/")
                (environ_get environ "OUTPUT_PREFIX" "metadata/") records p k e s0
              = (Some c, s1)).
  { induction records as [|record rest IH]; intros p k e s0 Hs0 Hall; cbn [run_records].
    - eauto.
    - apply Forall_cons in Hall as [Hrecord Hrest].
      destruct (process_record_returns (environ_get environ "INPUT_PREFIX" "incoming/")
                  (environ_get environ "OUTPUT_PREFIX" "metadata/") record s0 Hs0 Hrecord)
        as (o & s1 & -> & Hs1).
      destruct o; apply IH; assumption. }
  destruct (Hrun _ 0 0 0 s Hs Htyped) as ([[p k] e] & s1 & ->). eauto.
Qed.

(** The handler returns a summary whenever the value under ["Records"]
    is absent, falsy or iterable, no request is scheduled to raise an
    exception other than a [ClientError], and every envelope that parses has
    for bucket a [str] the client accepts and for key a [str] whose output key
    can be printed. *)
Theorem handler_returns_when_well_typed environ event records s :
  event_records event = Some records ->
  no_other_exception s ->
  Forall (well_typed_envelope (environ_get environ "INPUT_PREFIX" "incoming/")
            (environ_get environ "OUTPUT_PREFIX" "metadata/"))
         records ->
  exists r s', metadata_handler_event environ event s = (Some r, s').
Proof.
  intros Hrecords Hs Htyped. unfold metadata_handler_event. rewrite Hrecords.
  apply (metadata_handler_returns environ {| Records := Some records |} s Hs Htyped).
Qed.

(** ** A store that answers every request *)

Lemma process_one_fault_free input_prefix output_prefix b k etag s :
  s3_faults s = [] ->
  valid_bucket_name b = true ->
  printable (_build_metadata_key k input_prefix output_prefix) = true ->
  fst (process_one input_prefix output_prefix (JStr b) (JStr k) etag s)
  = Some (store_outcome input_prefix output_prefix b k (s3_objects s)).
Proof.
  intros Hf Hvalid Hprint. unfold process_one, store_outcome.
  destruct (negb (Str.startswith k input_prefix) || negb (_is_allowed_image_key k));
    [reflexivity|].
  rewrite Hprint. cbn [negb].
  unfold head_object, s3_call. rewrite Hvalid, Hf.
  destruct (s3_objects s !! (b, _build_metadata_key k input_prefix output_prefix));
    [reflexivity|].
  cbn [negb Str.mem existsb String.eqb Ascii.eqb Bool.eqb orb andb].
  unfold fetch_decode_write, fetch_step, get_object, s3_call.
  cbn [s3_faults s3_objects tail]. rewrite Hvalid.
  destruct (s3_objects s !! (b, k)) as [obj|]; [|reflexivity].
  destruct (decode_step (obj_body obj)) as [[[[width height] fmt] exif_data]|];
    [|reflexivity].
  unfold put_object, s3_call. rewrite Hvalid. reflexivity.
Qed.

(** On a store with no failure scheduled, the outcome of an item whose
    bucket the client accepts and whose output key can be printed is read
    off the objects held: skipped when validation fails or the output key is
    there, an error when the source object is missing or does not decode,
    processed otherwise; no exception leaves the loop body. *)
Theorem fault_free_outcome input_prefix output_prefix b k etag s :
  s3_faults s = [] ->
  valid_bucket_name b = true ->
  printable (_build_metadata_key k input_prefix output_prefix) = true ->
  fst (process_one input_prefix output_prefix (JStr b) (JStr k) etag s)
  = Some
      (if negb (Str.startswith k input_prefix) || negb (_is_allowed_image_key k)
       then Skipped
       else
         match s3_objects s !! (b, _build_metadata_key k input_prefix output_prefix) with
         | Some _ => Skipped
         | None =>
             match s3_objects s !! (b, k) with
             | None => Errored
             | Some obj =>
                 match decode_step (obj_body obj) with
                 | None => Errored
                 | Some _ => Processed
                 end
             end
         end).
Proof. apply process_one_fault_free. Qed.

(** ** A batch delivered again *)

Lemma process_record_faults_nil input_prefix output_prefix record s o s' :
  s3_faults s = [] ->
  process_record input_prefix output_prefix record s = (o, s') ->
  s3_faults s' = [].
Proof.
  unfold process_record. intros Hf H.
  destruct (parse_envelope record) as [[[bucket key] etag]|].
  - apply process_one_effects in H as ([n Hn] & _). rewrite Hn, Hf. apply drop_nil.
  - injection H as _ <-. exact Hf.
Qed.

(** A record that was counted in a first run is, against any later store
    that answers every request, counted again without being processed. *)
Lemma redelivered_record input_prefix output_prefix record u o u' final t :
  s3_faults u = [] ->
  process_record input_prefix output_prefix record u = (Some o, u') ->
  keeps_images u' final ->
  s3_faults t = [] ->
  s3_objects t = s3_objects final ->
  exists o2 t',
    process_record input_prefix output_prefix record t = (Some o2, t')
    /\ o2 <> Processed
    /\ s3_objects t' = s3_objects t
    /\ s3_faults t' = [].
Proof.
  intros Hfu Hu Hfinal Hft Hobjs.
  destruct (process_record input_prefix output_prefix record t) as [o2 t'] eqn:Ht.
  pose proof (process_record_faults_nil _ _ _ _ _ _ Hft Ht) as Hft'.
  pose proof (process_record_keeps_images _ _ _ _ _ _ Hu) as Hstep.
  unfold process_record in Hu, Ht.
  destruct (parse_envelope record) as [[[bucket key] etag]|].
  2: { injection Ht as <- <-. exists Errored, t. repeat split; auto; discriminate. }
  destruct key as [| | | |k| |]; try (unfold process_one in Hu; discriminate).
  destruct (negb (Str.startswith k input_prefix) || negb (_is_allowed_image_key k)) eqn:Hv.
  { unfold process_one in Ht. rewrite Hv in Ht. injection Ht as <- <-.
    exists Skipped, t. repeat split; auto; discriminate. }
  pose proof Hv as Hv'. apply orb_false_iff in Hv' as [Hpre' Hext'].
  apply negb_false_iff in Hpre'. apply negb_false_iff in Hext'.
  destruct (process_one_accepted _ _ _ _ _ _ _ _ Hu Hpre' Hext')
    as (Hprint & b & -> & Hvalid).
  pose proof (process_one_fault_free input_prefix output_prefix b k etag u
                Hfu Hvalid Hprint) as Hou.
  pose proof (process_one_fault_free input_prefix output_prefix b k etag t
                Hft Hvalid Hprint) as Hot.
  rewrite Hu in Hou. rewrite Ht in Hot. cbn [fst] in Hou, Hot.
  injection Hou as Hou. subst o2. eexists _, t'. split; [reflexivity|].
  assert (Hnot : store_outcome input_prefix output_prefix b k (s3_objects t) <> Processed).
  { intros Hproc. unfold store_outcome in Hproc, Hou. rewrite Hv in Hproc, Hou.
    apply orb_false_iff in Hv as [_ Hallowed]. apply negb_false_iff in Hallowed.
    destruct Hfinal as [Hkeep Hdom]. destruct Hstep as [Hkeep1 Hdom1].
    rewrite Hobjs in Hproc.
    destruct (s3_objects final !! (b, _build_metadata_key k input_prefix output_prefix))
      as [|] eqn:Hout; [discriminate|].
    rewrite (Hkeep b k Hallowed), (Hkeep1 b k Hallowed) in Hproc.
    assert (Hout' : s3_objects u' !! (b, _build_metadata_key k input_prefix output_prefix)
                    = None).
    { destruct (s3_objects u' !! _) eqn:Hsome; [|reflexivity].
      destruct (Hdom _ (ex_intro _ _ Hsome)) as [x Hx]. congruence. }
    assert (Hout0 : s3_objects u !! (b, _build_metadata_key k input_prefix output_prefix)
                    = None).
    { destruct (s3_objects u !! _) eqn:Hsome; [|reflexivity].
      destruct (Hdom1 _ (ex_intro _ _ Hsome)) as [x Hx]. congruence. }
    rewrite Hout0 in Hou.
    destruct (s3_objects u !! (b, k)) as [obj|]; [|discriminate].
    destruct (decode_step (obj_body obj)); [|discriminate].
    subst o.
    apply process_one_Processed_inv in Hu
      as (b' & k' & obj' & width & height & fmt & exif_data
          & Hb & Hk & _ & _ & _ & _ & _ & Hwritten).
    injection Hb as <-. injection Hk as <-. cbv zeta in Hwritten.
    rewrite Hwritten, lookup_insert_eq in Hout'. discriminate. }
  split; [exact Hnot|]. split; [|exact Hft'].
  apply process_one_effects in Ht as (_ & Hsame & _). apply Hsame. congruence.
Qed.

Lemma redelivered_records input_prefix output_prefix records :
  forall p k e u c final final' t p2 k2 e2,
    s3_faults u = [] ->
    run_records input_prefix output_prefix records p k e u = (Some c, final) ->
    keeps_images final final' ->
    s3_faults t = [] ->
    s3_objects t = s3_objects final' ->
    exists k2' e2' t',
      run_records input_prefix output_prefix records p2 k2 e2 t = (Some (p2, k2', e2'), t')
      /\ s3_objects t' = s3_objects t
      /\ s3_faults t' = [].
Proof.
  induction records as [|record rest IH];
    intros p k e u c final final' t p2 k2 e2 Hfu Hrun Hfinal Hft Hobjs.
  - cbn [run_records]. exists k2, e2, t. auto.
  - cbn [run_records] in Hrun |- *.
    destruct (process_record input_prefix output_prefix record u) as [o u1] eqn:Hu.
    pose proof (process_record_faults_nil _ _ _ _ _ _ Hfu Hu) as Hfu1.
    destruct o as [o|]; [|discriminate].
    assert (Hrest : exists p' k' e',
              run_records input_prefix output_prefix rest p' k' e' u1 = (Some c, final))
      by (destruct o; eauto).
    destruct Hrest as (p' & k' & e' & Hrest).
    assert (Hkeeps : keeps_images u1 final')
      by (eapply keeps_images_trans; [eapply run_records_keeps_images; exact Hrest|];
          exact Hfinal).
    destruct (redelivered_record _ _ _ _ _ _ _ _ Hfu Hu Hkeeps Hft Hobjs)
      as (o2 & t1 & -> & Ho2 & Hobjs1 & Hft1).
    assert (Hobjs1' : s3_objects t1 = s3_objects final') by congruence.
    destruct o2; [contradiction| |].
    + destruct (IH _ _ _ _ _ _ _ _ p2 (S k2) e2 Hfu1 Hrest Hfinal Hft1 Hobjs1')
        as (k2' & e2' & t' & -> & Hobjs' & Hft').
      exists k2', e2', t'. repeat split; congruence.
    + destruct (IH _ _ _ _ _ _ _ _ p2 k2 (S e2) Hfu1 Hrest Hfinal Hft1 Hobjs1')
        as (k2' & e2' & t' & -> & Hobjs' & Hft').
      exists k2', e2', t'. repeat split; congruence.
Qed.

Lemma run_records_faults_nil input_prefix output_prefix records p k e s r s' :
  s3_faults s = [] ->
  run_records input_prefix output_prefix records p k e s = (r, s') ->
  s3_faults s' = [].
Proof.
  revert p k e s. induction records as [|record rest IH]; intros p k e s Hf H.
  - injection H as _ <-. exact Hf.
  - cbn [run_records] in H.
    destruct (process_record input_prefix output_prefix record s) as [o s1] eqn:Hrec.
    apply (process_record_faults_nil _ _ _ _ _ _ Hf) in Hrec.
    destruct o as [[]|]; eauto. injection H as _ <-. exact Hrec.
Qed.

(** A batch run to the end against a store that answers every request and
    then delivered again processes nothing the second time: every record is
    counted as skipped or as an error, and no object changes. *)
Theorem redelivery_processes_nothing environ event s r s1 :
  s3_faults s = [] ->
  metadata_handler environ event s = (Some r, s1) ->
  exists r2 s2,
    metadata_handler environ event s1 = (Some r2, s2)
    /\ processed r2 = 0
    /\ skipped r2 + errors r2 = length (default [] (Records event))
    /\ s3_objects s2 = s3_objects s1.
Proof.
  unfold metadata_handler. intros Hf H.
  destruct (run_records _ _ _ 0 0 0 s) as [[c|] s1'] eqn:Hrun;
    [|destruct s1'; discriminate].
  assert (s1' = s1) as -> by (destruct c as [[p k] e]; congruence).
  pose proof (run_records_faults_nil _ _ _ _ _ _ _ _ _ Hf Hrun) as Hf1.
  destruct (redelivered_records _ _ _ _ _ _ _ _ _ s1 s1 0 0 0 Hf Hrun
              (keeps_images_refl s1) Hf1 eq_refl)
    as (k2 & e2 & s2 & Hrun2 & Hobjs & _).
  rewrite Hrun2. eexists _, s2. split; [reflexivity|].
  cbn [processed skipped errors].
  apply run_records_count in Hrun2. repeat split; [lia | exact Hobjs].
Qed.

End StoreProperties.

(** ** The mapping the tag normalizer returns *)

Section ExifProperties.

Context `{L : Libs}.

Lemma dict_set_keys (d : PyDict) k v x :
  x ∈ map fst (dict_set d k v) -> x ∈ map fst d \/ x = k.
Proof.
  induction d as [|[k' v'] d IH]; simpl.
  - rewrite list_elem_of_singleton. auto.
  - destruct (String.eqb k' k) eqn:Hk; simpl; rewrite !elem_of_cons.
    + apply String.eqb_eq in Hk as ->. tauto.
    + intros [-> | Hx]; [auto|]. destruct (IH Hx); auto.
Qed.

Lemma dict_set_NoDup (d : PyDict) k v :
  NoDup (map fst d) -> NoDup (map fst (dict_set d k v)).
Proof.
  induction d as [|[k' v'] d IH]; simpl; intros Hd.
  - repeat constructor. apply not_elem_of_nil.
  - apply NoDup_cons in Hd as [Hk' Hd].
    destruct (String.eqb k' k) eqn:Hk; simpl.
    + apply String.eqb_eq in Hk as ->. apply NoDup_cons. auto.
    + apply NoDup_cons. split; [|auto].
      intros Hin. apply dict_set_keys in Hin as [Hin | ->]; [contradiction|].
      rewrite String.eqb_refl in Hk. discriminate.
Qed.

Lemma dict_get_elem (d : PyDict) name v :
  NoDup (map fst d) -> (name, v) ∈ d -> dict_get d name = Some v.
Proof.
  induction d as [|[k' v'] d IH]; simpl; intros Hd Hin.
  - apply elem_of_nil in Hin as [].
  - apply NoDup_cons in Hd as [Hk' Hd].
    apply elem_of_cons in Hin as [[= -> ->] | Hin].
    + rewrite String.eqb_refl. reflexivity.
    + destruct (String.eqb k' name) eqn:Hk; [|auto].
      apply String.eqb_eq in Hk as ->. exfalso. apply Hk'.
      apply list_elem_of_fmap. exists (name, v). auto.
Qed.

Lemma dict_get_set_ne (d : PyDict) k x name :
  k <> name -> dict_get (dict_set d k x) name = dict_get d name.
Proof.
  intros Hne. induction d as [|[k' v'] d IH]; simpl.
  - destruct (String.eqb k name) eqn:Hk; [|reflexivity].
    apply String.eqb_eq in Hk. contradiction.
  - destruct (String.eqb k' k) eqn:Hk; simpl.
    + apply String.eqb_eq in Hk as ->.
      destruct (String.eqb k name) eqn:Hk; [|reflexivity].
      apply String.eqb_eq in Hk. contradiction.
    + rewrite IH. reflexivity.
Qed.

Lemma exif_loop_NoDup items acc out :
  exif_loop items acc = Some out -> NoDup (map fst acc) -> NoDup (map fst out).
Proof.
  revert acc. induction items as [|[t w] items IH]; simpl; intros acc H Hacc.
  - injection H as <-. exact Hacc.
  - destruct (coerce_tag_value w); [|discriminate].
    eapply IH; eauto using dict_set_NoDup.
Qed.

Lemma exif_loop_app items1 items2 acc :
  exif_loop (items1 ++ items2) acc = exif_loop items1 acc ≫= exif_loop items2.
Proof.
  revert acc. induction items1 as [|[t w] items1 IH]; intros acc; simpl; [reflexivity|].
  destruct (coerce_tag_value w); [apply IH | reflexivity].
Qed.

Lemma exif_loop_other_names items acc out name :
  exif_loop items acc = Some out ->
  (forall t w, (t, w) ∈ items -> tag_name t <> name) ->
  dict_get out name = dict_get acc name.
Proof.
  revert acc. induction items as [|[t w] items IH]; simpl; intros acc H Hnames.
  - injection H as <-. reflexivity.
  - destruct (coerce_tag_value w) as [x|]; [|discriminate].
    rewrite (IH _ H).
    + apply dict_get_set_ne. apply (Hnames t w). apply list_elem_of_here.
    + intros t' w' Hin. apply (Hnames t' w'). apply list_elem_of_further, Hin.
Qed.

Lemma safe_exif_dict_loop img exif items out :
  img_getexif img = Some exif ->
  read_tags exif = Some items ->
  exif_loop items [] = Some out ->
  _safe_exif_dict img = out.
Proof.
  unfold _safe_exif_dict. intros -> Hread Hloop.
  destruct exif as [|e exif].
  - injection Hread as <-. injection Hloop as <-. reflexivity.
  - rewrite Hread. simpl. rewrite Hloop. reflexivity.
Qed.

(** The mapping returned has one entry per name: its keys are pairwise
    distinct, and every entry is what a lookup of its name gives. *)
Theorem safe_exif_dict_keys_distinct (img : Image) :
  NoDup (map fst (_safe_exif_dict img))
  /\ forall name v,
       (name, v) ∈ _safe_exif_dict img ->
       dict_get (_safe_exif_dict img) name = Some v.
Proof.
  assert (Hnodup : NoDup (map fst (_safe_exif_dict img))).
  { unfold _safe_exif_dict.
    destruct (img_getexif img) as [[|e exif]|]; try apply NoDup_nil_2.
    destruct (read_tags (e :: exif)) as [items|]; [|apply NoDup_nil_2]. simpl.
    destruct (exif_loop items []) as [out|] eqn:Hloop; [|apply NoDup_nil_2].
    eapply exif_loop_NoDup; [exact Hloop | apply NoDup_nil_2]. }
  split; [exact Hnodup|]. intros name v. apply dict_get_elem, Hnodup.
Qed.

(** When several tags resolve to the same name, the entry under that name
    holds the value of the last of them. *)
Theorem last_tag_wins img exif items1 tag_id value items2 v :
  img_getexif img = Some exif ->
  read_tags exif = Some (items1 ++ (tag_id, value) :: items2)%list ->
  is_Some (exif_loop (items1 ++ (tag_id, value) :: items2)%list []) ->
  coerce_tag_value value = Some v ->
  (forall t w, (t, w) ∈ items2 -> tag_name t <> tag_name tag_id) ->
  dict_get (_safe_exif_dict img) (tag_name tag_id) = Some v.
Proof.
  intros Hexif Hread [out Hloop] Hv Hlater.
  rewrite (safe_exif_dict_loop _ _ _ _ Hexif Hread Hloop).
  rewrite exif_loop_app in Hloop.
  destruct (exif_loop items1 []) as [acc|]; [|discriminate].
  simpl in Hloop. rewrite Hv in Hloop.
  rewrite (exif_loop_other_names _ _ _ _ Hloop Hlater). apply dict_get_set.
Qed.

End ExifProperties.

(** * The further theorems at the sample inputs *)

Lemma ingest_requires_queue_url_witness :
  Ingest.ingest_handler (L := Sample.libs) (U := SampleIngest.url_lib)
    ∅ SampleIngest.event (SampleIngest.queue_with [])
  = (None, SampleIngest.queue_with []).
Proof. apply ingest_requires_queue_url. left. reflexivity. Defined.

Lemma ingest_counts_every_record_witness :
  SampleIngest.run
  = (Some {| Ingest.statusCode := 200; Ingest.sent := 2; Ingest.skipped := 3 |},
     snd SampleIngest.run)
  /\ 2 + 3 = length (default [] (Records SampleIngest.event))
  /\ length (sqs_sent (snd SampleIngest.run)) = 0 + 2.
Proof.
  assert (H : SampleIngest.run
              = (Some {| Ingest.statusCode := 200; Ingest.sent := 2; Ingest.skipped := 3 |},
                 snd SampleIngest.run)) by (vm_compute; reflexivity).
  split; [exact H|].
  destruct (ingest_counts_every_record (L := Sample.libs) (U := SampleIngest.url_lib)
              _ _ _ _ _ H) as (Hsum & _ & Hlen).
  split; [exact Hsum | exact Hlen].
Defined.


Lemma ingest_send_failure_aborts_witness :
  exists q',
    Ingest.ingest_handler_event (L := Sample.libs) (U := SampleIngest.url_lib)
      SampleIngest.environ
      [("Records", JArr (default [] (Records SampleIngest.event)))]
      (SampleIngest.queue_with [false; true])
    = (None, q')
    /\ length (sqs_sent q') = 1.
Proof.
  destruct (ingest_send_failure_aborts (L := Sample.libs) (U := SampleIngest.url_lib)
              SampleIngest.environ
              [("Records", JArr (default [] (Records SampleIngest.event)))]
              (default [] (Records SampleIngest.event))
              (SampleIngest.queue_with [false; true]) "https://queue" 1 [])
    as (q' & Hrun & Hsent).
  - vm_compute. reflexivity.
  - reflexivity.
  - reflexivity.
  - vm_compute. lia.
  - repeat (apply Forall_cons_2; [vm_compute; auto|]). apply Forall_nil_2.
  - exists q'. split; [exact Hrun|]. rewrite Hsent. vm_compute. reflexivity.
Defined.


Lemma ingested_message_reaches_existence_check_witness :
  Ingest.message_of (L := Sample.libs) (U := SampleIngest.url_lib) "incoming/"
    SampleIngest.plain_photo = Some Sample.good_text
  /\ parse_envelope (L := Sample.libs) (Sample.record_of Sample.good_text)
     = Some (JStr "b", JStr "incoming/photos/a.jpg", JStr "e1").
Proof.
  destruct (ingested_message_reaches_existence_check (L := Sample.libs)
              (U := SampleIngest.url_lib) "incoming/" "metadata/"
              SampleIngest.plain_photo (JStr "b") "incoming/photos/a.jpg" (JStr "e1")
              [("body", JStr Sample.good_text)] Sample.store)
    as (Hmessage & Henvelope & _); try (vm_compute; reflexivity).
  split; [exact Hmessage | exact Henvelope].
Defined.

Lemma build_metadata_key_injective_witness :
  ("incoming/" +:+ "a.jpg") = "incoming/a.jpg".
Proof.
  apply (build_metadata_key_injective _ _ "incoming/" "metadata/"); reflexivity.
Defined.

Lemma process_one_trace_witness :
  exists body,
    s3_calls Sample.processed_store
    = [CallHead (JStr "b") "metadata/photos/a.jpg.json";
       CallGet (JStr "b") "incoming/photos/a.jpg";
       CallPut (JStr "b") "metadata/photos/a.jpg.json" body "application/json"].
Proof.
  assert (H : Sample.scenario_A = (Some Processed, Sample.processed_store))
    by (vm_compute; reflexivity).
  destruct (process_one_trace (L := Sample.libs) _ _ _ _ _ _ _ _ H)
    as (_ & [Hnone | (k & Hk & [Hhead | [Hget | [body Hput]]])]).
  - vm_compute in Hnone. discriminate.
  - injection Hk as <-. vm_compute in Hhead. discriminate.
  - injection Hk as <-. vm_compute in Hget. discriminate.
  - injection Hk as <-. exists body. exact Hput.
Defined.

Lemma handler_keeps_images_witness :
  s3_objects (snd Sample.batch_result) !! ("b", "incoming/photos/a.jpg")
  = Some Sample.source_object.
Proof.
  destruct (handler_keeps_images (L := Sample.libs) Sample.no_environ Sample.batch_event
              Sample.store (fst Sample.batch_result) (snd Sample.batch_result))
    as [Hkept _]; [vm_compute; reflexivity|].
  rewrite Hkept; reflexivity.
Defined.

Lemma handler_call_budget_witness :
  exists new,
    s3_calls (snd Sample.batch_result) = new /\ length new <= 12.
Proof.
  destruct (handler_call_budget (L := Sample.libs) Sample.no_environ Sample.batch_event
              Sample.store (fst Sample.batch_result) (snd Sample.batch_result))
    as (new & Hcalls & Hlen); [vm_compute; reflexivity|].
  exists new. split; [exact Hcalls | exact Hlen].
Defined.

Lemma handler_returns_when_well_typed_witness :
  exists r s',
    metadata_handler_event (L := Sample.libs) Sample.no_environ
      [("Records", JArr (default [] (Records Sample.batch_event)))]
      (Sample.store_with [Some (ClientError "AccessDenied")])
    = (Some r, s').
Proof.
  apply (handler_returns_when_well_typed (L := Sample.libs) Sample.no_environ
           [("Records", JArr (default [] (Records Sample.batch_event)))]
           (default [] (Records Sample.batch_event))).
  - reflexivity.
  - repeat constructor; discriminate.
  - repeat (apply Forall_cons_2; [vm_compute; auto|]). apply Forall_nil_2.
Defined.

Lemma fault_free_outcome_witness :
  fst Sample.scenario_A = Some Processed.
Proof.
  unfold Sample.scenario_A.
  rewrite (fault_free_outcome (L := Sample.libs) "incoming/" "metadata/" "b"
             "incoming/photos/a.jpg" (JStr "e1") Sample.store eq_refl eq_refl eq_refl).
  vm_compute. reflexivity.
Defined.

Lemma redelivery_processes_nothing_witness :
  exists r2 s2,
    metadata_handler (L := Sample.libs) Sample.no_environ Sample.batch_event
      (snd Sample.batch_result) = (Some r2, s2)
    /\ processed r2 = 0
    /\ skipped r2 + errors r2 = 4.
Proof.
  destruct (redelivery_processes_nothing (L := Sample.libs) Sample.no_environ
              Sample.batch_event Sample.store
              {| statusCode := 200; processed := 1; skipped := 2; errors := 1 |}
              (snd Sample.batch_result))
    as (r2 & s2 & Hrun & Hnone & Hsum & _); [reflexivity | vm_compute; reflexivity |].
  exists r2, s2. split; [exact Hrun|]. split; [exact Hnone | exact Hsum].
Defined.

Lemma last_tag_wins_witness :
  dict_get (_safe_exif_dict (L := SampleTags.libs) SampleTags.image) "Tag"
  = Some (JStr "second").
Proof.
  apply (last_tag_wins (L := SampleTags.libs) SampleTags.image
           [(1%Z, Some (VOther "first")); (2%Z, Some (VOther "second"))]
           [(1%Z, VOther "first")] 2%Z (VOther "second") []).
  - reflexivity.
  - reflexivity.
  - eexists. reflexivity.
  - reflexivity.
  - intros t w Hin. apply elem_of_nil in Hin as [].
Defined.

(** * Exceptions that leave the loop body *)

(** The client refuses the bucket name [a/b] before any request: the
    exception is not a [ClientError], and the existence check lets it go. *)
Example refused_bucket_raises :
  let run := process_one (L := Sample.libs) "incoming/" "metadata/" (JStr "a/b")
               (JStr "incoming/photos/a.jpg") JNull Sample.store in
  fst run = None
  /\ s3_calls (snd run) = [CallHead (JStr "a/b") "metadata/photos/a.jpg.json"]
  /\ s3_faults (snd run) = s3_faults Sample.store.
Proof. vm_compute. auto. Qed.

(** A key that holds a lone surrogate passes validation; printing its
    output key raises, before any call of the client. *)
Example unprintable_key_raises :
  let key := "incoming/" +:+ String (ascii_of_nat 237) (String (ascii_of_nat 160)
               (String (ascii_of_nat 128) ".jpg")) in
  let run := process_one (L := Sample.libs) "incoming/" "metadata/" (JStr "b")
               (JStr key) JNull Sample.store in
  fst run = None /\ s3_calls (snd run) = [].
Proof. vm_compute. auto. Qed.

(** In the ingestion stage a filtered-out key that cannot be printed stops
    the batch: the photo that follows it is not sent. *)
Example unprintable_skip_raises :
  let key := "outgoing/" +:+ String (ascii_of_nat 237) (String (ascii_of_nat 160)
               (String (ascii_of_nat 128) ".jpg")) in
  let run := Ingest.ingest_handler_event (L := Sample.libs) (U := SampleIngest.url_lib)
               SampleIngest.environ
               [("Records", JArr [SampleIngest.notification (JStr "b") (JStr key) [];
                                  SampleIngest.plain_photo])]
               (SampleIngest.queue_with []) in
  fst run = None /\ sqs_sent (snd run) = [].
Proof. vm_compute. auto. Qed.

(** A [str] under ["Records"] is looped over character by character, and
    each character is counted: skipped by the ingestion stage, an error of
    the processing stage. *)
Example str_records_counted :
  fst (Ingest.ingest_handler_event (L := Sample.libs) (U := SampleIngest.url_lib)
         SampleIngest.environ [("Records", JStr "abc")] (SampleIngest.queue_with []))
  = Some {| Ingest.statusCode := 200; Ingest.sent := 0; Ingest.skipped := 3 |}
  /\ fst (metadata_handler_event (L := Sample.libs) Sample.no_environ
            [("Records", JStr "abc")] Sample.store)
     = Some {| statusCode := 200; processed := 0; skipped := 0; errors := 3 |}.
Proof. vm_compute. auto. Qed.
